(** * drop-worker: the FlixPatrol scrape / filter / upsert pipeline

    A shallow embedding of [src/server/index.js] (the cheerio based
    extractor, the route handlers and the upsert loop) and of the variant
    of the same worker whose extractor is the regular-expression based
    [parseMovieData] (the function is also kept, uncalled, in
    [src/server/index.js]).

    Conventions of the embedding.
    - A JavaScript string is a [string]: a sequence of code units below 256.
      Every pattern the program searches for is ASCII.
    - [null] and [undefined] are [None]; a value tested for truthiness is
      tested with [truthy].
    - A computation that may throw is a [result]; a computation that awaits
      the storage handle threads the store through [M].
    - [console.log] and [console.error] write to the worker's log only; they
      return nothing the program reads, and are left out. *)

From Stdlib Require Import List Bool Arith Lia ZArith Ascii String.
From Stdlib Require Import Numbers.DecimalString.
Import ListNotations.
Open Scope string_scope.
Open Scope list_scope.

Set Implicit Arguments.
Set Warnings "-register-all".

(* ================================================================== *)
(** * JavaScript values and control *)

Module JS.

(** A thrown [Error]: its [message]. *)
Record Error := mkError { message : string }.

(** The completion of a computation: normal, or abrupt by [throw]. *)
Inductive result (A : Type) : Type :=
| Ok (a : A)
| Throw (e : Error).
Arguments Ok {A} a.
Arguments Throw {A} e.

Definition bind {A B} (c : result A) (k : A -> result B) : result B :=
  match c with
  | Ok a => k a
  | Throw e => Throw e
  end.

(** [try { c } catch (error) { h error }] *)
Definition try_catch {A} (c : result A) (h : Error -> result A) : result A :=
  match c with
  | Ok a => Ok a
  | Throw e => h e
  end.

(** Truthiness of a string-or-undefined value: the empty string, [null]
    and [undefined] are falsy. *)
Definition truthy (v : option string) : bool :=
  match v with
  | Some s => negb (s =? "")
  | None => false
  end.

(** [v || null] on a string-or-undefined value. *)
Definition or_null (v : option string) : option string :=
  if truthy v then v else None.

(** [v || ''] on a string-or-undefined value. *)
Definition or_empty (v : option string) : string :=
  match v with
  | Some s => s
  | None => ""
  end.

(** Template literal [`${n}`] of a non-negative integer. *)
Definition show_nat (n : nat) : string :=
  NilEmpty.string_of_uint (Nat.to_uint n).

(** ** String primitives *)

(** [s.startsWith(p)] *)
Fixpoint startsWith (p s : string) : bool :=
  match p, s with
  | EmptyString, _ => true
  | String a p', String b s' => Ascii.eqb a b && startsWith p' s'
  | String _ _, EmptyString => false
  end.

(** [s.includes(needle)]: case-sensitive substring search. *)
Fixpoint includes (needle s : string) : bool :=
  startsWith needle s ||
  match s with
  | EmptyString => false
  | String _ s' => includes needle s'
  end.

(** White space and line terminators below code unit 256:
    TAB, LF, VT, FF, CR, SPACE, NBSP. *)
Definition is_space (c : ascii) : bool :=
  let n := nat_of_ascii c in
  ((9 <=? n) && (n <=? 13) || (n =? 32) || (n =? 160))%nat.

Fixpoint trimStart (s : string) : string :=
  match s with
  | EmptyString => EmptyString
  | String c s' => if is_space c then trimStart s' else s
  end.

Fixpoint trimEnd (s : string) : string :=
  match s with
  | EmptyString => EmptyString
  | String c s' =>
      let t := trimEnd s' in
      if is_space c && (t =? "") then EmptyString else String c t
  end.

(** [s.trim()] *)
Definition trim (s : string) : string := trimEnd (trimStart s).

(** Extends the piece under construction by one code unit. *)
Definition push_front (c : ascii) (pieces : list string) : list string :=
  match pieces with
  | p :: ps => String c p :: ps
  | [] => [String c EmptyString]
  end.

(** [s.split(sep)] for a non-empty separator: the pieces between the
    leftmost, non-overlapping occurrences of [sep].  [skip] counts the
    code units of an occurrence that are still to be dropped. *)
Fixpoint split_go (sep : string) (skip : nat) (s : string) : list string :=
  match s with
  | EmptyString => [EmptyString]
  | String c s' =>
      match skip with
      | S k => split_go sep k s'
      | O =>
          if startsWith sep s
          then EmptyString :: split_go sep (String.length sep - 1) s'
          else push_front c (split_go sep 0 s')
      end
  end.

Definition split (sep s : string) : list string := split_go sep 0 s.

(** [xs.slice(1)] *)
Definition slice1 {A} (xs : list A) : list A := tl xs.

(** [xs[i]], [undefined] out of range. *)
Definition index {A} (xs : list A) (i : nat) : option A := nth_error xs i.

(** ** JSON values, as [Response.json] receives them *)

Inductive json : Type :=
| JNull
| JBool (b : bool)
| JNum (n : nat)
| JStr (s : string)
| JArr (xs : list json)
| JObj (fields : list (string * json)).

(** Property read [o.k]; [None] is [undefined]. *)
Fixpoint get_field (k : string) (fields : list (string * json))
  : option json :=
  match fields with
  | [] => None
  | (k', v) :: rest => if k =? k' then Some v else get_field k rest
  end.

Definition prop (k : string) (o : json) : option json :=
  match o with
  | JObj fields => get_field k fields
  | _ => None
  end.

(** Own property names, in insertion order. *)
Definition keys (o : json) : list string :=
  match o with
  | JObj fields => map fst fields
  | _ => []
  end.

Definition of_nullable (v : option string) : json :=
  match v with
  | Some s => JStr s
  | None => JNull
  end.

End JS.

Import JS.

Declare Scope js_scope.
Delimit Scope js_scope with js.
Notation "x <- c ;; k" := (JS.bind c (fun x => k))
  (at level 61, c at next level, right associativity) : js_scope.


(* ================================================================== *)
(** * Regular expressions, as far as the worker uses them

    The worker's patterns are built from literal text, alternation,
    capturing groups, and quantified character classes
    ([[^x]+], [\s*], [\d{n}]).  Matching is the backtracking matcher of the
    language: alternatives left to right, quantifiers greedy, the search
    starting at the leftmost position that succeeds. *)

Module Regex.

Definition charset := ascii -> bool.

Inductive regex : Type :=
| Lit (w : string)
| Cat (r1 r2 : regex)
| Alt (r1 r2 : regex)
| Star (p : charset)
| Plus (p : charset)
| Times (n : nat) (p : charset)
| Group (i : nat) (r : regex).

Fixpoint seq (rs : list regex) : regex :=
  match rs with
  | [] => Lit EmptyString
  | [r] => r
  | r :: rs' => Cat r (seq rs')
  end.

Fixpoint alt (rs : list regex) : regex :=
  match rs with
  | [] => Lit EmptyString
  | [r] => r
  | r :: rs' => Alt r (alt rs')
  end.

(** [\d] *)
Definition digit : charset :=
  fun c => let n := nat_of_ascii c in ((48 <=? n) && (n <=? 57))%nat.

(** [\s] *)
Definition space : charset := is_space.

(** [[^x]] *)
Definition not_char (x : ascii) : charset := fun c => negb (Ascii.eqb c x).

(** Canonicalize of the [i] flag (no [u] flag): the upper-case form of a
    code unit, on the code units below 256 whose upper-case form is again
    below 256. *)
Definition canonicalize (c : ascii) : ascii :=
  let n := nat_of_ascii c in
  if ((97 <=? n) && (n <=? 122))%nat then ascii_of_nat (n - 32)
  else if ((224 <=? n) && (n <=? 254) && negb (n =? 247))%nat
       then ascii_of_nat (n - 32)
  else c.

(** The groups a match has set, most recent first. *)
Definition captures := list (nat * string).

Fixpoint group (i : nat) (caps : captures) : option string :=
  match caps with
  | [] => None
  | (j, s) :: rest => if (i =? j)%nat then Some s else group i rest
  end.

Fixpoint take (n : nat) (s : string) : string :=
  match n, s with
  | S n', String c s' => String c (take n' s')
  | _, _ => EmptyString
  end.

(** What was read between the input [s] and its suffix [s']. *)
Definition consumed (s s' : string) : string :=
  take (String.length s - String.length s') s.

Section Matcher.

Variable ignoreCase : bool.

Definition same_char (a b : ascii) : bool :=
  if ignoreCase then Ascii.eqb (canonicalize a) (canonicalize b)
  else Ascii.eqb a b.

(** The input after the literal [w], when the input starts with it. *)
Fixpoint match_lit (w s : string) : option string :=
  match w, s with
  | EmptyString, _ => Some s
  | String a w', String b s' =>
      if same_char a b then match_lit w' s' else None
  | String _ _, EmptyString => None
  end.

(** Exactly [n] characters of the class. *)
Fixpoint match_times (n : nat) (p : charset) (s : string) : option string :=
  match n, s with
  | O, _ => Some s
  | S n', String c s' => if p c then match_times n' p s' else None
  | S _, EmptyString => None
  end.

Section Continuation.

Variable R : Type.

(** Greedy [p*]: the longest run first, then shorter ones. *)
Fixpoint match_star (p : charset) (s : string)
         (k : string -> option R) : option R :=
  match s with
  | String c s' =>
      if p c
      then match match_star p s' k with
           | Some r => Some r
           | None => k s
           end
      else k s
  | EmptyString => k s
  end.

End Continuation.

(** [m r s caps k]: match [r] at the start of [s], then continue with
    [k] on the rest; [None] when every way of matching fails. *)
Fixpoint m (r : regex) (s : string) (caps : captures)
         (k : string -> captures -> option captures) : option captures :=
  match r with
  | Lit w =>
      match match_lit w s with
      | Some s' => k s' caps
      | None => None
      end
  | Cat r1 r2 => m r1 s caps (fun s' caps' => m r2 s' caps' k)
  | Alt r1 r2 =>
      match m r1 s caps k with
      | Some c => Some c
      | None => m r2 s caps k
      end
  | Star p => match_star p s (fun s' => k s' caps)
  | Plus p =>
      match s with
      | String c s' =>
          if p c then match_star p s' (fun s'' => k s'' caps) else None
      | EmptyString => None
      end
  | Times n p =>
      match match_times n p s with
      | Some s' => k s' caps
      | None => None
      end
  | Group i r' =>
      m r' s caps (fun s' caps' => k s' ((i, consumed s s') :: caps'))
  end.

(** A match that starts exactly at the head of [s]; group 0 is the
    whole match. *)
Definition match_here (r : regex) (s : string) : option captures :=
  m r s [] (fun s' caps => Some ((0, consumed s s') :: caps)).

(** [re.exec(s)] / [s.match(re)] without the [g] flag. *)
Fixpoint exec (r : regex) (s : string) : option captures :=
  match match_here r s with
  | Some caps => Some caps
  | None =>
      match s with
      | EmptyString => None
      | String _ s' => exec r s'
      end
  end.

(** [re.test(s)] *)
Definition test (r : regex) (s : string) : bool :=
  match exec r s with
  | Some _ => true
  | None => false
  end.

End Matcher.

(** [s.match(re)[i]] for a pattern without flags; [None] when there is no
    match. *)
Definition match_group (r : regex) (i : nat) (s : string) : option string :=
  match exec false r s with
  | Some caps => group i caps
  | None => None
  end.

End Regex.

(* ================================================================== *)
(** * The candidate record *)

(** The [movie] object an extractor builds for one row. *)
Record Movie := mkMovie {
  title : option string;
  posterUrl : option string;
  link : option string;
  year : option string;
  country : option string;
  genre : option string;
  hasStreaming : bool;
  isMovie : bool
}.

(** The origin both extractors put in front of a poster path and a link. *)
Definition base_origin : string := "https://flixpatrol.com".

(** [catch] with a handler that only logs: the value the surrounding code
    goes on with is [fallback]. *)
Definition recover {A} (c : result A) (fallback : A) : A :=
  match try_catch c (fun _ => Ok fallback) with
  | Ok a => a
  | Throw _ => fallback
  end.

(** What [fetch] resolves to. *)
Record FetchResponse := mkFetchResponse {
  ok : bool;
  status : nat;
  text_body : result string   (* [await response.text()] *)
}.

(* ================================================================== *)
(** * The cheerio interface and the extractor of [src/server/index.js] *)

Module Cheerio.

(** The selectors the worker passes to [$] and [find]. *)
Inductive selector : Type :=
| Tag (t : string)                (* 'img', 'a', 'span' *)
| TagAttr (t a : string)          (* 'img[alt]' *)
| TagAttrEq (t a v : string)      (* 'span[title=Premiere]', value quoted *)
| TagClass (t c : string).        (* 'tr.table-group' *)

(** The part of the library the worker calls.  A selection is the list of
    its elements in document order; every call may throw. *)
Record api (E : Type) : Type := mkApi {
  load : string -> result E;                       (* cheerio.load(html) *)
  find : selector -> list E -> result (list E);    (* sel.find(selector) *)
  attr : string -> list E -> result (option string);  (* sel.attr(name) *)
  text : list E -> result string                   (* sel.text() *)
}.

(** [$(x)] for an element or [undefined]. *)
Definition wrap {E} (x : option E) : list E :=
  match x with
  | Some e => [e]
  | None => []
  end.

End Cheerio.

Import Cheerio.

(** [/Netflix|Amazon|Disney|HBO|Hulu|Apple TV|streaming|Stream/] *)
Definition streaming_words : list string :=
  ["Netflix"; "Amazon"; "Disney"; "HBO"; "Hulu"; "Apple TV"; "streaming";
   "Stream"].

Definition re_streaming : Regex.regex :=
  Regex.alt (map Regex.Lit streaming_words).

Section Scrape.

Variable E : Type.
Variable Q : api E.

Local Open Scope js_scope.

(** The body of the [try] block of the row callback; the result is the
    [movies] array after the block. *)
Definition row_body (movies : list Movie) (row : E)
  : result (list Movie) :=
  imgAlt <- find Q (TagAttr "img" "alt") [row] ;;
  alt <- attr Q "alt" imgAlt ;;
  let title := or_null alt in
  img <- find Q (Tag "img") [row] ;;
  src <- attr Q "src" img ;;
  let posterSrc := or_empty src in
  let posterUrl :=
    if truthy (Some posterSrc) then Some (base_origin ++ posterSrc)%string
    else None in
  a <- find Q (Tag "a") [row] ;;
  href <- attr Q "href" a ;;
  let linkHref := or_empty href in
  let link :=
    if truthy (Some linkHref) then Some (base_origin ++ linkHref)%string
    else None in
  premiereSpan <- find Q (TagAttrEq "span" "title" "Premiere") [row] ;;
  premiereText <- text Q premiereSpan ;;
  let fullDateText := trim premiereText in
  let year := or_null (index (split "/" fullDateText) 2) in
  allSpans <- find Q (Tag "span") [row] ;;
  countryText <- text Q (wrap (index allSpans 2)) ;;
  let country := or_null (Some (trim countryText)) in
  genreText <- text Q (wrap (index allSpans 4)) ;;
  let genre := or_null (Some (trim genreText)) in
  rowText <- text Q [row] ;;
  let hasStreaming := Regex.test true re_streaming rowText in
  let isMovie := includes "Movie" rowText in
  if truthy title && isMovie
  then Ok (movies ++ [mkMovie title posterUrl link year country genre
                              hasStreaming true])
  else Ok movies.

(** The callback of [each]: [try { ... } catch (error) { log }]. *)
Definition row_callback (movies : list Movie) (row : E) : list Movie :=
  recover (row_body movies row) movies.

(** [scrapeFlixPatrol], from the settled [fetch].  [$('tr.table-group')]
    searches below the root of the loaded document, which is [find] on
    the selection that holds the root. *)
Definition scrapeFlixPatrol (fetched : result FetchResponse)
  : result (list Movie) :=
  response <- fetched ;;
  if negb (ok response)
  then Throw (mkError ("HTTP error! status: "
                       ++ show_nat (status response))%string)
  else
    html <- text_body response ;;
    doc <- load Q html ;;
    rows <- find Q (TagClass "tr" "table-group") [doc] ;;
    Ok (fold_left row_callback rows []).

End Scrape.

(* ================================================================== *)
(** * A document tree for the cheerio interface *)

Module Dom.

Inductive node : Type :=
| Text (s : string)
| Comment (s : string)
| Element (tag : string) (attrs : list (string * string))
          (children : list node).

Fixpoint get_attr (name : string) (attrs : list (string * string))
  : option string :=
  match attrs with
  | [] => None
  | (k, v) :: rest => if k =? name then Some v else get_attr name rest
  end.

(** The white-space separated tokens of an attribute value. *)
Fixpoint tokens_go (cur : string) (s : string) : list string :=
  match s with
  | EmptyString => if cur =? EmptyString then [] else [cur]
  | String c s' =>
      if is_space c
      then (if cur =? EmptyString then [] else [cur])
             ++ tokens_go EmptyString s'
      else tokens_go (cur ++ String c EmptyString)%string s'
  end.

Definition tokens (s : string) : list string := tokens_go EmptyString s.

Definition matches (sel : selector) (n : node) : bool :=
  match n with
  | Element tag attrs _ =>
      match sel with
      | Tag t => tag =? t
      | TagAttr t a =>
          (tag =? t) &&
          match get_attr a attrs with
          | Some _ => true
          | None => false
          end
      | TagAttrEq t a v =>
          (tag =? t) &&
          match get_attr a attrs with
          | Some v' => v' =? v
          | None => false
          end
      | TagClass t c =>
          (tag =? t) &&
          match get_attr "class" attrs with
          | Some v => existsb (String.eqb c) (tokens v)
          | None => false
          end
      end
  | _ => false
  end.

(** The proper descendants of a node, in document order. *)
Fixpoint descendants (n : node) : list node :=
  match n with
  | Element _ _ kids =>
      (fix go (ks : list node) : list node :=
         match ks with
         | [] => []
         | k :: ks' => k :: descendants k ++ go ks'
         end) kids
  | _ => []
  end.

(** The text of a node: the text nodes below it, concatenated. *)
Fixpoint textContent (n : node) : string :=
  match n with
  | Text s => s
  | Comment _ => EmptyString
  | Element _ _ kids =>
      (fix go (ks : list node) : string :=
         match ks with
         | [] => EmptyString
         | k :: ks' => (textContent k ++ go ks')%string
         end) kids
  end.

(** [sel.find(selector)] on a selection of one element, which is how the
    worker calls it; on more, the matches below each, in order. *)
Definition find_all (sel : selector) (ns : list node) : list node :=
  flat_map (fun n => filter (matches sel) (descendants n)) ns.

(** [sel.attr(name)]: the attribute of the first element. *)
Definition attr_first (name : string) (ns : list node) : option string :=
  match ns with
  | Element _ attrs _ :: _ => get_attr name attrs
  | _ => None
  end.

(** [sel.text()]: the texts of the elements, concatenated. *)
Definition text_all (ns : list node) : string :=
  String.concat EmptyString (map textContent ns).

(** The library over a document tree; [parse] is the markup parser.
    None of the calls throws. *)
Definition cheerio (parse : string -> node) : api node :=
  mkApi (fun html => Ok (parse html))
        (fun sel ns => Ok (find_all sel ns))
        (fun name ns => Ok (attr_first name ns))
        (fun ns => Ok (text_all ns)).

(** The values the row callback reads off a row of the tree. *)

(** [$(row).find('img[alt]').attr('alt') || null] *)
Definition title_of (row : node) : option string :=
  or_null (attr_first "alt" (find_all (TagAttr "img" "alt") [row])).

(** [$(row).find('img').attr('src') || ''] *)
Definition posterSrc (row : node) : string :=
  or_empty (attr_first "src" (find_all (Tag "img") [row])).

(** [$(row).find('a').attr('href') || ''] *)
Definition linkHref (row : node) : string :=
  or_empty (attr_first "href" (find_all (Tag "a") [row])).

(** [premiereSpan.text().trim()] *)
Definition fullDateText (row : node) : string :=
  trim (text_all (find_all (TagAttrEq "span" "title" "Premiere") [row])).

(** [$(row).text()] *)
Definition rowText (row : node) : string := text_all [row].

End Dom.

(* ================================================================== *)
(** * The pattern based extractor: [parseMovieData] *)

Module Parse.

Import Regex.

Definition dquote : ascii := ascii_of_nat 34.
Definition q : string := String dquote EmptyString.

Local Open Scope string_scope.

(** [/alt=Q([^Q]+)Q/], Q the double quote *)
Definition re_title : regex :=
  seq [Lit ("alt=" ++ q); Group 1 (Plus (not_char dquote)); Lit q].

(** [/src=Q([^Q]+\.jpg)Q/] *)
Definition re_poster : regex :=
  seq [Lit ("src=" ++ q);
       Group 1 (Cat (Plus (not_char dquote)) (Lit ".jpg"));
       Lit q].

(** [/href=Q([^Q]+)Q/] *)
Definition re_link : regex :=
  seq [Lit ("href=" ++ q); Group 1 (Plus (not_char dquote)); Lit q].

(** [/<span class=Qtext-gray-600Q>(\d{2})\/(\d{2})\/(\d{4})<\/span>/] *)
Definition re_year : regex :=
  seq [Lit ("<span class=" ++ q ++ "text-gray-600" ++ q ++ ">");
       Group 1 (Times 2 digit); Lit "/";
       Group 2 (Times 2 digit); Lit "/";
       Group 3 (Times 4 digit); Lit "</span>"].

(** [/<span>([^<]+)<\/span>\s*
     <span class=Qmx-1 text-gray-600 select-noneQ>\|<\/span>\s*
     <span><span title=QPremiereQ>/], written here on three lines *)
Definition re_country : regex :=
  seq [Lit "<span>"; Group 1 (Plus (not_char "<"%char)); Lit "</span>";
       Star space;
       Lit ("<span class=" ++ q ++ "mx-1 text-gray-600 select-none" ++ q
            ++ ">|</span>");
       Star space;
       Lit ("<span><span title=" ++ q ++ "Premiere" ++ q ++ ">")].

(** [/<span>([^<]+)<\/span>\s*<\/div><\/div>/] *)
Definition re_genre : regex :=
  seq [Lit "<span>"; Group 1 (Plus (not_char "<"%char)); Lit "</span>";
       Star space; Lit "</div></div>"].

(** The separator of the rows: [<tr class=Qtable-groupQ>] *)
Definition row_marker : string :=
  "<tr class=" ++ q ++ "table-group" ++ q ++ ">".

(** The body of the [try] block for one row. *)
Definition row_body (movies : list Movie) (row : string)
  : result (list Movie) :=
  let titleMatch := match_group re_title 1 row in
  let posterMatch := match_group re_poster 1 row in
  let linkMatch := match_group re_link 1 row in
  let yearMatch := match_group re_year 3 row in
  let countryMatch := match_group re_country 1 row in
  let genreMatch := match_group re_genre 1 row in
  let isMovie' := includes "Movie" row in
  let hasStreaming' :=
    includes "Netflix" row || includes "Amazon" row
    || includes "Disney" row || includes "HBO" row
    || includes "Hulu" row || includes "Apple TV" row
    || includes "streaming" row || includes "Stream" row in
  let movie :=
    mkMovie titleMatch
            (option_map (String.append base_origin) posterMatch)
            (option_map (String.append base_origin) linkMatch)
            yearMatch countryMatch genreMatch hasStreaming' isMovie' in
  if truthy (title movie) && isMovie movie
  then Ok (movies ++ [movie])%list
  else Ok movies.

Definition row_callback (movies : list Movie) (row : string) : list Movie :=
  recover (row_body movies row) movies.

Definition parseMovieData (html : string) : list Movie :=
  let movieRows := slice1 (split row_marker html) in
  fold_left row_callback movieRows [].

(** [scrapeFlixPatrol] of this variant. *)
Definition scrapeFlixPatrol (fetched : result FetchResponse)
  : result (list Movie) :=
  (response <- fetched ;;
   if negb (ok response)
   then Throw (mkError ("HTTP error! status: "
                        ++ show_nat (status response)))
   else
     html <- text_body response ;;
     Ok (parseMovieData html))%js.

End Parse.

(* ================================================================== *)
(** * The filter of the route handlers *)

(** [movie.year === target] *)
Definition year_is (target : string) (movie : Movie) : bool :=
  match year movie with
  | Some y => y =? target
  | None => false
  end.

(** The callback of [scrapedData.filter], the year it compares with taken
    as [target]; the handlers compare with ['2025']. *)
Definition keep (target : string) (movie : Movie) : bool :=
  let is2025 := year_is target movie in
  let hasNoStreaming := negb (hasStreaming movie) in
  is2025 && hasNoStreaming.

Definition filter_year (target : string) (scrapedData : list Movie)
  : list Movie :=
  filter (keep target) scrapedData.

Definition filtered2025 (scrapedData : list Movie) : list Movie :=
  filter_year "2025" scrapedData.

(* ================================================================== *)
(** * Storage: the handle, the upsert statement, the loop *)

Module Store.

(** A computation that awaits the storage handle: it may change the
    store, and it completes normally or throws. *)
Definition M (S A : Type) : Type := S -> result A * S.

Definition ret {S A} (a : A) : M S A := fun s => (Ok a, s).

Definition bind {S A B} (c : M S A) (k : A -> M S B) : M S B :=
  fun s =>
    match c s with
    | (Ok a, s') => k a s'
    | (Throw e, s') => (Throw e, s')
    end.

(** A computation that does not touch the store. *)
Definition lift {S A} (c : result A) : M S A := fun s => (c, s).

(** [try { c } catch (error) { h error }] *)
Definition try_catch {S A} (c : M S A) (h : Error -> M S A) : M S A :=
  fun s =>
    match c s with
    | (Ok a, s') => (Ok a, s')
    | (Throw e, s') => h e s'
    end.

Declare Scope store_scope.
Delimit Scope store_scope with store.
Notation "x <- c ;; k" := (bind c (fun x => k))
  (at level 61, c at next level, right associativity) : store_scope.

Section Loop.

Variable S : Type.

(** The tagged template [sql`INSERT ... ON CONFLICT ...`] for one
    movie. *)
Variable sql : Movie -> M S unit.

Local Open Scope store_scope.

(** The [for ... of] loop, [storedCount] passed along. *)
Fixpoint store_loop (movies : list Movie) (storedCount : nat)
  : M S nat :=
  match movies with
  | [] => ret storedCount
  | movie :: rest =>
      storedCount' <-
        try_catch (_ <- sql movie ;; ret (Datatypes.S storedCount))
                  (fun error => ret storedCount) ;;
      store_loop rest storedCount'
  end.

Definition storeMoviesInDatabase (movies : list Movie) : M S nat :=
  store_loop movies 0.

End Loop.

(** ** The table and the statement *)

(** A row of [movies]; the columns of the INSERT. *)
Record StoredMovie := mkStored {
  col_title : option string;
  col_poster_url : option string;
  col_link : option string;
  col_year : option string;
  col_country : option string;
  col_genre : option string;
  col_has_streaming : bool;
  col_updated_at : nat
}.

(** The store: the table, and the instant [NOW()] reads. *)
Record Db := mkDb {
  movies_table : list StoredMovie;
  now : nat
}.

(** Equality of two column values as a unique index sees it: NULL is
    distinct from everything. *)
Definition same_value (a b : option string) : bool :=
  match a, b with
  | Some x, Some y => x =? y
  | _, _ => false
  end.

(** [ON CONFLICT (title, year)]: the existing row the new one collides
    with. *)
Definition conflicts (movie : Movie) (r : StoredMovie) : bool :=
  same_value (col_title r) (title movie)
  && same_value (col_year r) (year movie).

(** [VALUES (...)]: the row proposed for insertion (EXCLUDED). *)
Definition excluded (t : nat) (movie : Movie) : StoredMovie :=
  mkStored (title movie) (posterUrl movie) (link movie) (year movie)
           (country movie) (genre movie) (hasStreaming movie) t.

(** [DO UPDATE SET poster_url = EXCLUDED.poster_url, ...,
    updated_at = NOW()]. *)
Definition do_update (t : nat) (movie : Movie) (r : StoredMovie)
  : StoredMovie :=
  let e := excluded t movie in
  mkStored (col_title r) (col_poster_url e) (col_link e) (col_year r)
           (col_country e) (col_genre e) (col_has_streaming e) t.

(** The statement on the table, at instant [t]. *)
Definition upsert (t : nat) (movie : Movie) (rows : list StoredMovie)
  : list StoredMovie :=
  if existsb (conflicts movie) rows
  then map (fun r => if conflicts movie r then do_update t movie r else r)
           rows
  else rows ++ [excluded t movie].

(** The handle [neon] returns.  The table's declaration is not part of
    the worker; [rejects] stands for whatever makes the storage refuse a
    statement (a constraint of the declaration, a transient fault).  A
    refused statement leaves the table as it was.  The statement reads
    the clock for its NOW() and does not move it: how the clock moves
    from one awaited statement to the next is the matter of
    [Ticking.neon_sql], of which this is the case of a clock that stands
    still. *)
Definition neon_sql (rejects : Movie -> Db -> option Error)
  : Movie -> M Db unit :=
  fun movie db =>
    match rejects movie db with
    | Some e => (Throw e, db)
    | None =>
        (Ok tt, mkDb (upsert (now db) movie (movies_table db)) (now db))
    end.

End Store.

(* ================================================================== *)
(** * The route handlers *)

Module Router.

Import Store.

Record Response := mkResponse {
  body : json;
  http_status : nat;
  headers : list (string * string)
}.

Definition corsHeaders : list (string * string) :=
  [("Access-Control-Allow-Origin", "*");
   ("Access-Control-Allow-Methods", "GET, POST, PUT, DELETE, OPTIONS");
   ("Access-Control-Allow-Headers", "Content-Type")].

(** A [movie] object as JSON, properties in the order the cheerio
    extractor assigns them ([parseMovieData] assigns [isMovie] before
    [hasStreaming]). *)
Definition movie_json (movie : Movie) : json :=
  JObj [("title", of_nullable (title movie));
        ("posterUrl", of_nullable (posterUrl movie));
        ("link", of_nullable (link movie));
        ("year", of_nullable (year movie));
        ("country", of_nullable (country movie));
        ("genre", of_nullable (genre movie));
        ("hasStreaming", JBool (hasStreaming movie));
        ("isMovie", JBool (isMovie movie))].

Section Handlers.

Variable S : Type.

(** What a run finds around it: the settled [fetch], what
    [getDb(env)] gives, and the clock's [toISOString()]. *)
Record Env := mkEnv {
  fetched : result FetchResponse;
  getDb : result (Movie -> M S unit);
  isoNow : string
}.

(** [scrapeFlixPatrol] of the variant at hand. *)
Variable scrape : result FetchResponse -> result (list Movie).

Local Open Scope store_scope.

(** [router.get('/scheduled', ...)] *)
Definition scheduled (env : Env) : M S Response :=
  try_catch
    (scrapedData <- lift (scrape (fetched env)) ;;
     let filtered2025Movies := filtered2025 scrapedData in
     sql <- lift (getDb env) ;;
     stored <- storeMoviesInDatabase sql filtered2025Movies ;;
     let result :=
       JObj [("success", JBool true);
             ("timestamp", JStr (isoNow env));
             ("totalScraped", JNum (List.length scrapedData));
             ("filtered2025Count",
              JNum (List.length filtered2025Movies));
             ("storedCount", JNum stored);
             ("message",
              JStr ("Successfully scraped and stored "
                    ++ show_nat stored ++ " movies")%string)] in
     ret (mkResponse result 200 []))
    (fun error =>
       ret (mkResponse
              (JObj [("success", JBool false);
                     ("error", JStr (message error));
                     ("timestamp", JStr (isoNow env))])
              500 [])).

(** [router.get('/scrape-now', ...)] *)
Definition scrape_now (env : Env) : M S Response :=
  try_catch
    (scrapedData <- lift (scrape (fetched env)) ;;
     let filtered2025Movies := filtered2025 scrapedData in
     sql <- lift (getDb env) ;;
     stored <- storeMoviesInDatabase sql filtered2025Movies ;;
     ret (mkResponse
            (JObj [("success", JBool true);
                   ("timestamp", JStr (isoNow env));
                   ("totalScraped", JNum (List.length scrapedData));
                   ("filtered2025Count",
                    JNum (List.length filtered2025Movies));
                   ("storedCount", JNum stored);
                   ("movies",
                    JArr (map movie_json filtered2025Movies))])
            200 corsHeaders))
    (fun error =>
       ret (mkResponse
              (JObj [("success", JBool false);
                     ("error", JStr (message error))])
              500 corsHeaders)).

(** A run succeeded when its response says so. *)
Definition succeeded (r : Response) : bool :=
  match prop "success" (body r) with
  | Some (JBool true) => true
  | _ => false
  end.

End Handlers.

End Router.

(* ================================================================== *)
(** * Vocabulary of the statements *)

(** [sub] is [full] with some elements left out, order kept. *)
Inductive subseq {A : Type} : list A -> list A -> Prop :=
| subseq_nil : subseq [] []
| subseq_skip : forall x sub full, subseq sub full -> subseq sub (x :: full)
| subseq_keep : forall x sub full,
    subseq sub full -> subseq (x :: sub) (x :: full).

Definition is_ok {A} (r : result A) : bool :=
  match r with
  | Ok _ => true
  | Throw _ => false
  end.

(** The statements of a batch run one after the other, each on the store
    the one before left: which of them succeeded, and the store at the
    end. *)
Fixpoint attempts {S} (sql : Movie -> Store.M S unit) (movies : list Movie)
         (s : S) : list bool * S :=
  match movies with
  | [] => ([], s)
  | movie :: rest =>
      let (r, s1) := sql movie s in
      let (flags, s2) := attempts sql rest s1 in
      (is_ok r :: flags, s2)
  end.

(** A string of exactly four decimal digits. *)
Definition four_digits (s : string) : bool :=
  match Regex.match_times 4 Regex.digit s with
  | Some EmptyString => true
  | _ => false
  end.

(** Two strings that differ in the case of their letters only. *)
Definition same_modulo_case (a b : string) : Prop :=
  map Regex.canonicalize (list_ascii_of_string a)
  = map Regex.canonicalize (list_ascii_of_string b).

(** [s] carries a scheme: it starts with [http://] or [https://]. *)
Definition has_scheme (s : string) : bool :=
  startsWith "http://" s || startsWith "https://" s.

(** A row the cheerio extractor reads without a throw and emits. *)
Definition well_formed {E} (Q : api E) (row : E) : Prop :=
  exists movie, row_body Q [] row = Ok [movie].

(** A row on which the [try] block of the callback throws. *)
Definition malformed {E} (Q : api E) (row : E) : Prop :=
  exists e, row_body Q [] row = Throw e.

(* ================================================================== *)
(** * What a pattern matches *)

Module RegexSem.

Import Regex.

(** [run_of p s s']: [s] is [s'] preceded by characters of the class. *)
Inductive run_of (p : charset) : string -> string -> Prop :=
| run_done : forall s, run_of p s s
| run_more : forall c s s',
    p c = true -> run_of p s s' -> run_of p (String c s) s'.

(** [matches ic r s s' caps caps']: the pattern reads [s] down to [s'],
    and the groups it sets turn [caps] into [caps']. *)
Inductive matches (ic : bool)
  : regex -> string -> string -> captures -> captures -> Prop :=
| M_Lit : forall w s s' caps,
    match_lit ic w s = Some s' -> matches ic (Lit w) s s' caps caps
| M_Cat : forall r1 r2 s s1 s2 c0 c1 c2,
    matches ic r1 s s1 c0 c1 -> matches ic r2 s1 s2 c1 c2 ->
    matches ic (Cat r1 r2) s s2 c0 c2
| M_AltL : forall r1 r2 s s' c0 c1,
    matches ic r1 s s' c0 c1 -> matches ic (Alt r1 r2) s s' c0 c1
| M_AltR : forall r1 r2 s s' c0 c1,
    matches ic r2 s s' c0 c1 -> matches ic (Alt r1 r2) s s' c0 c1
| M_Star : forall p s s' caps,
    run_of p s s' -> matches ic (Star p) s s' caps caps
| M_Plus : forall p c s s' caps,
    p c = true -> run_of p s s' ->
    matches ic (Plus p) (String c s) s' caps caps
| M_Times : forall n p s s' caps,
    match_times n p s = Some s' -> matches ic (Times n p) s s' caps caps
| M_Group : forall i r s s' c0 c1,
    matches ic r s s' c0 c1 ->
    matches ic (Group i r) s s' c0 ((i, consumed s s') :: c1).

(** [s'] is what is left of [s] from some position on. *)
Inductive suffix_of : string -> string -> Prop :=
| suffix_here : forall s, suffix_of s s
| suffix_later : forall c s s', suffix_of s' s -> suffix_of s' (String c s).

End RegexSem.

(** A piece of a date: it holds no slash. *)
Definition no_slash (s : string) : Prop :=
  forall c, In c (list_ascii_of_string s) -> c <> "/"%char.

(** The number of statements that succeeded. *)
Definition successes (flags : list bool) : nat :=
  List.length (filter (fun b => b) flags).

(** The object a handler builds after a run that did not throw. *)
Definition summary (isoNow : string) (total kept stored : nat) : json :=
  JObj [("success", JBool true);
        ("timestamp", JStr isoNow);
        ("totalScraped", JNum total);
        ("filtered2025Count", JNum kept);
        ("storedCount", JNum stored);
        ("message",
         JStr ("Successfully scraped and stored "
               ++ show_nat stored ++ " movies")%string)].

(** The response of [/scheduled] after a run that threw. *)
Definition failure_scheduled (isoNow : string) (e : Error) : Router.Response :=
  Router.mkResponse (JObj [("success", JBool false);
                           ("error", JStr (message e));
                           ("timestamp", JStr isoNow)])
                    500 [].

(* ================================================================== *)
(** * Sample inputs *)

Module Sample.

Import Dom Store Router.

(** A row of the popularity table as the page lays it out: poster and
    link, then the spans of category, country, genre and premiere. *)
Definition row (alt src href country genre premiere note : string) : node :=
  Element "tr" [("class", "table-group")]
    [Element "td" []
       [Element "a" [("href", href)]
          [Element "img" [("alt", alt); ("src", src)] []]];
     Element "td" []
       [Element "span" [] [Text "Movie"];
        Element "span" [] [Text "|"];
        Element "span" [] [Text country];
        Element "span" [] [Text "|"];
        Element "span" [] [Text genre];
        Element "span" [("title", "Premiere")] [Text premiere];
        Text note]].

Definition page (rows : list node) : node :=
  Element "html" []
    [Element "body" [] [Element "table" [] [Element "tbody" [] rows]]].

Definition inception : node :=
  row "Inception" "/p/inception.jpg" "/title/inception"
      "United States" "Sci-Fi" " 12/07/2025 " EmptyString.

(** The poster and the link given as absolute URLs. *)
Definition absolute : node :=
  row "Dune" "https://cdn.example.com/dune.jpg"
      "https://example.com/title/dune"
      "United States" "Sci-Fi" "01/03/2025" EmptyString.

(** The premiere date with a two-digit year. *)
Definition short_year : node :=
  row "Heat" "/p/heat.jpg" "/title/heat"
      "United States" "Crime" "06/04/25" EmptyString.

(** A row without a poster image. *)
Definition untitled : node :=
  Element "tr" [("class", "table-group container")]
    [Element "td" [] [Text "Movie"]].

Definition shouting : node :=
  row "Heat" "/p/heat.jpg" "/title/heat"
      "United States" "Crime" "06/04/2025" " now STREAMING on netflix".

Definition alpha : node :=
  row "Alpha" "/p/a.jpg" "/title/a" "France" "Drama" "01/01/2025"
      EmptyString.
Definition beta : node :=
  row "Beta" "/p/b.jpg" "/title/b" "France" "Drama" "02/01/2025"
      EmptyString.
Definition gamma : node :=
  row "Gamma" "/p/c.jpg" "/title/c" "France" "Drama" "03/01/2025"
      EmptyString.

(** The library over a fixed tree. *)
Definition lib (doc : node) : api node := cheerio (fun _ => doc).

(** A double of the library whose [attr] throws on a selection that
    holds an element marked [data-broken]. *)
Definition is_broken (n : node) : bool :=
  match n with
  | Element _ attrs _ =>
      match get_attr "data-broken" attrs with
      | Some _ => true
      | None => false
      end
  | _ => false
  end.

Definition brittle (doc : node) : api node :=
  mkApi (load (lib doc))
        (find (lib doc))
        (fun name ns =>
           if existsb is_broken ns
           then Throw (mkError "cannot read the element")
           else attr (lib doc) name ns)
        (text (lib doc)).

Definition broken : node :=
  Element "tr" [("class", "table-group")]
    [Element "td" []
       [Element "img" [("alt", "Broken"); ("data-broken", "1")] [];
        Text "Movie"]].

Definition fetched_ok : result FetchResponse :=
  Ok (mkFetchResponse true 200 (Ok "<html>...</html>")).

(** Markup for [parseMovieData]: one row, the service named in lower
    case and the generic term in upper case. *)
Definition html_shouting : string :=
  ("<table>" ++ Parse.row_marker
   ++ "<td><a href=" ++ Parse.q ++ "/title/heat" ++ Parse.q
   ++ "><img alt=" ++ Parse.q ++ "Heat" ++ Parse.q
   ++ " src=" ++ Parse.q ++ "/p/heat.jpg" ++ Parse.q ++ "></a></td>"
   ++ "<td>Movie <span class=" ++ Parse.q ++ "text-gray-600" ++ Parse.q
   ++ ">06/04/2025</span> now STREAMING on netflix</td></tr></table>")%string.

Definition html_absolute : string :=
  ("<table>" ++ Parse.row_marker
   ++ "<td><a href=" ++ Parse.q ++ "https://example.com/title/dune"
   ++ Parse.q ++ "><img alt=" ++ Parse.q ++ "Dune" ++ Parse.q
   ++ " src=" ++ Parse.q ++ "https://cdn.example.com/dune.jpg" ++ Parse.q
   ++ "></a></td><td>Movie</td></tr></table>")%string.

(** Storage that refuses the record titled Beta. *)
Definition rejects_beta (movie : Movie) (db : Db) : option Error :=
  match title movie with
  | Some t =>
      if t =? "Beta"
      then Some (mkError "violates check constraint")
      else None
  | None => None
  end.

Definition accepts_all (movie : Movie) (db : Db) : option Error := None.

Definition empty_db : Db := mkDb [] 1000.

Definition env (rejects : Movie -> Db -> option Error) : Env Db :=
  mkEnv fetched_ok (Ok (neon_sql rejects)) "2025-07-12T00:00:00.000Z".

(** A stored row for (Inception, 2025), every column populated. *)
Definition stored_inception : StoredMovie :=
  mkStored (Some "Inception") (Some "https://flixpatrol.com/p/old.jpg")
           (Some "https://flixpatrol.com/title/inception") (Some "2025")
           (Some "United States") (Some "Thriller") true 900.

Definition stored_other : StoredMovie :=
  mkStored (Some "Heat") None None (Some "2025") None (Some "Crime")
           false 800.

Definition db_two : Db := mkDb [stored_other; stored_inception] 1000.

(** The same key observed again: another genre, no poster. *)
Definition inception_again : Movie :=
  mkMovie (Some "Inception") None
          (Some "https://flixpatrol.com/title/inception") (Some "2025")
          (Some "United States") (Some "Sci-Fi") false true.

End Sample.

(* ================================================================== *)
(** * The read statements and the remaining routes *)

From Stdlib Require Import Sorting.Permutation.

Module Query.

Import Store.

(** [WHERE year = '2025' AND has_streaming = false]: a NULL year is not
    equal to anything. *)
Definition current (r : StoredMovie) : bool :=
  match col_year r with
  | Some y => y =? "2025"
  | None => false
  end
  && negb (col_has_streaming r).

(** [ORDER BY updated_at DESC] leaves the order of rows of equal
    [updated_at] to the storage; an ordering is any function that gives
    its input back rearranged, latest first. *)
Inductive latest_first : list StoredMovie -> Prop :=
| latest_nil : latest_first []
| latest_cons : forall r rows,
    (forall x, In x rows -> col_updated_at x <= col_updated_at r) ->
    latest_first rows -> latest_first (r :: rows).

Definition ordering (order_by : list StoredMovie -> list StoredMovie)
  : Prop :=
  forall rows,
    Permutation (order_by rows) rows
    /\ latest_first (order_by rows).

(** One ordering: insertion, a row going in front of the rows that are
    not later than it. *)
Fixpoint insert_desc (r : StoredMovie) (rows : list StoredMovie)
  : list StoredMovie :=
  match rows with
  | [] => [r]
  | x :: rest =>
      if (col_updated_at x <=? col_updated_at r)%nat
      then r :: rows
      else x :: insert_desc r rest
  end.

Definition sort_desc (rows : list StoredMovie) : list StoredMovie :=
  fold_right insert_desc [] rows.

(** The rows of
    [SELECT * FROM movies WHERE year = '2025' AND has_streaming = false
     ORDER BY updated_at DESC]. *)
Definition select_movies
           (order_by : list StoredMovie -> list StoredMovie)
           (rows : list StoredMovie) : list StoredMovie :=
  order_by (filter current rows).

(** The row of the aggregate query of [/stats]. *)
Record Stats := mkStats {
  total_movies : nat;
  last_updated : option nat
}.

(** [MAX(updated_at)]: NULL over no rows. *)
Fixpoint max_updated_at (rows : list StoredMovie) : option nat :=
  match rows with
  | [] => None
  | r :: rest =>
      match max_updated_at rest with
      | Some t => Some (Nat.max (col_updated_at r) t)
      | None => Some (col_updated_at r)
      end
  end.

(** [SELECT COUNT( * ) as total_movies, MAX(updated_at) as last_updated
     FROM movies WHERE year = '2025' AND has_streaming = false]:
    an aggregate without grouping gives one row. *)
Definition select_stats (rows : list StoredMovie) : list Stats :=
  [mkStats (List.length (filter current rows))
           (max_updated_at (filter current rows))].

(** The two statements on the handle [neon] returns; a refused
    statement throws, and neither changes the store. *)
Definition neon_movies
           (order_by : list StoredMovie -> list StoredMovie)
           (rejects : Db -> option Error)
  : M Db (list StoredMovie) :=
  fun db =>
    match rejects db with
    | Some e => (Throw e, db)
    | None => (Ok (select_movies order_by (movies_table db)), db)
    end.

Definition neon_stats (rejects : Db -> option Error) : M Db (list Stats) :=
  fun db =>
    match rejects db with
    | Some e => (Throw e, db)
    | None => (Ok (select_stats (movies_table db)), db)
    end.

End Query.

Module Routes.

Import Store Router.

(** [new Response(null, { headers: corsHeaders })] *)
Definition preflight : Response := mkResponse JNull 200 corsHeaders.

(** [router.get('/health', ...)], at the instant [isoNow]. *)
Definition health (isoNow : string) : Response :=
  mkResponse (JObj [("status", JStr "healthy");
                    ("timestamp", JStr isoNow);
                    ("version", JStr "1.0.0")])
             200 corsHeaders.

(** [router.get('/', ...)] *)
Definition root : Response :=
  mkResponse
    (JObj [("name", JStr "FlixPatrol Scraper Cron Job");
           ("description",
            JStr "Scrapes FlixPatrol every 2 hours for 2025 movies without streaming");
           ("endpoints",
            JObj [("/scheduled", JStr "GET - Cron job endpoint (internal)");
                  ("/scrape-now", JStr "GET - Manual scrape trigger");
                  ("/movies", JStr "GET - Get stored movies");
                  ("/stats", JStr "GET - Get scrape statistics");
                  ("/health", JStr "GET - Health check")]);
           ("schedule", JStr "Every 2 hours");
           ("database", JStr "PostgreSQL via Neon")])
    200 corsHeaders.

(** The answer of the read routes to a thrown error. *)
Definition failure_cors (e : Error) : Response :=
  mkResponse (JObj [("success", JBool false);
                    ("error", JStr (message e))])
             500 corsHeaders.

Section ReadHandlers.

Variable S : Type.

(** The row objects of the driver, and how they serialise. *)
Variable Row : Type.
Variable row_json : Row -> json.
Variable StatsRow : Type.
Variable stats_json : StatsRow -> json.

Local Open Scope store_scope.

(** [router.get('/movies', ...)]; [getDb] gives the handle, on which
    the SELECT is the computation [select]. *)
Definition movies_route (getDb : result (M S (list Row)))
  : M S Response :=
  try_catch
    (select <- lift getDb ;;
     movies <- select ;;
     ret (mkResponse
            (JObj [("success", JBool true);
                   ("count", JNum (List.length movies));
                   ("movies", JArr (map row_json movies))])
            200 corsHeaders))
    (fun error => ret (failure_cors error)).

(** [router.get('/stats', ...)]; [stats[0]] of an empty result is
    [undefined], and the property is then left out of the JSON. *)
Definition stats_route (getDb : result (M S (list StatsRow)))
  : M S Response :=
  try_catch
    (select <- lift getDb ;;
     stats <- select ;;
     ret (mkResponse
            (JObj (("success", JBool true)
                   :: match index stats 0 with
                      | Some row => [("stats", stats_json row)]
                      | None => []
                      end))
            200 corsHeaders))
    (fun error => ret (failure_cors error)).

End ReadHandlers.

(** ** The router and the cron entry point *)

Record Request := mkRequest {
  method : string;
  pathname : string
}.

Section Worker.

Variable S : Type.
Variable Row : Type.
Variable row_json : Row -> json.
Variable StatsRow : Type.
Variable stats_json : StatsRow -> json.
Variable scrape : result FetchResponse -> result (list Movie).

(** How the router decides that a route's path pattern fits a
    request's path, and what it answers when no route fits. *)
Variable path_matches : string -> string -> bool.
Variable missing : Response.

Local Open Scope store_scope.

(** What [env] and the world give a request. *)
Record WorkerEnv := mkWorkerEnv {
  run_env : Env S;
  getDb_movies : result (M S (list Row));
  getDb_stats : result (M S (list StatsRow))
}.

(** The routes in the order of their registration. *)
Definition routes : list (string * string * (WorkerEnv -> M S Response)) :=
  [("OPTIONS", "*", fun _ => ret preflight);
   ("GET", "/scheduled", fun env => scheduled scrape (run_env env));
   ("GET", "/scrape-now", fun env => scrape_now scrape (run_env env));
   ("GET", "/movies", fun env => movies_route row_json (getDb_movies env));
   ("GET", "/stats", fun env => stats_route stats_json (getDb_stats env));
   ("GET", "/health", fun env => ret (health (isoNow (run_env env))));
   ("GET", "/", fun _ => ret root)].

(** [router.fetch]: the first route of the request's method whose
    pattern fits answers. *)
Fixpoint dispatch (rs : list (string * string * (WorkerEnv -> M S Response)))
         (request : Request) (env : WorkerEnv) : M S Response :=
  match rs with
  | [] => ret missing
  | (verb, pattern, handler) :: rest =>
      if (verb =? method request)
         && path_matches pattern (pathname request)
      then handler env
      else dispatch rest request env
  end.

Definition router_fetch (request : Request) (env : WorkerEnv)
  : M S Response :=
  dispatch routes request env.

(** [handleScheduled]: a GET of [/scheduled] through the router; an
    error is logged and thrown again. *)
Definition handleScheduled (env : WorkerEnv) : M S Response :=
  try_catch
    (let request := mkRequest "GET" "/scheduled" in
     response <- router_fetch request env ;;
     ret response)
    (fun error => fun s => (Throw error, s)).

End Worker.

End Routes.

(* ================================================================== *)
(** * More vocabulary *)

(** [pieces.join(sep)] *)
Fixpoint join (sep : string) (pieces : list string) : string :=
  match pieces with
  | [] => EmptyString
  | [p] => p
  | p :: rest => (p ++ sep ++ join sep rest)%string
  end.

(** [s.endsWith(suffix)] *)
Fixpoint endsWith (suffix s : string) : bool :=
  (s =? suffix)
  || match s with
     | EmptyString => false
     | String _ s' => endsWith suffix s'
     end.

(** The key of a row, when every part of it is there. *)
Definition row_key (r : Store.StoredMovie) : option (string * string) :=
  match Store.col_title r, Store.col_year r with
  | Some t, Some y => Some (t, y)
  | _, _ => None
  end.

(** No two rows of the table carry the same key. *)
Fixpoint unique_keys (rows : list Store.StoredMovie) : Prop :=
  match rows with
  | [] => True
  | r :: rest =>
      (forall x, In x rest -> row_key r <> None -> row_key x <> row_key r)
      /\ unique_keys rest
  end.

(** A record with a title and a year. *)
Definition keyed (movie : Movie) : Prop :=
  title movie <> None /\ year movie <> None.

(** The statements of a batch that the storage accepted, in order, when
    every one of them is run at the same instant. *)
Fixpoint accepted (rejects : Movie -> Store.Db -> option Error)
         (movies : list Movie) (db : Store.Db) : list Movie :=
  match movies with
  | [] => []
  | movie :: rest =>
      match rejects movie db with
      | Some _ => accepted rejects rest db
      | None =>
          movie :: accepted rejects rest
                     (Store.mkDb (Store.upsert (Store.now db) movie
                                               (Store.movies_table db))
                                 (Store.now db))
      end
  end.

(** Without leading or trailing white space. *)
Definition trimmed (s : string) : Prop := trim s = s.

(** The key of an incoming record, when every part of it is there. *)
Definition movie_key (movie : Movie) : option (string * string) :=
  match title movie, year movie with
  | Some t, Some y => Some (t, y)
  | _, _ => None
  end.

(** The table after the statements of [movies], all accepted, all run at
    the instant [t]. *)
Definition upsert_all (t : nat) (movies : list Movie)
           (rows : list Store.StoredMovie) : list Store.StoredMovie :=
  fold_left (fun table movie => Store.upsert t movie table) movies rows.

(** A row the read routes select, written at an instant between two
    readings of the clock. *)
Definition written_between (t0 t1 : nat) (r : Store.StoredMovie) : Prop :=
  Query.current r = true
  /\ t0 <= Store.col_updated_at r /\ Store.col_updated_at r <= t1.

(* ================================================================== *)
(** * More sample inputs *)

Module Scene.

Import Store Router.

(** The page answering 503. *)
Definition unavailable : FetchResponse :=
  mkFetchResponse false 503 (Ok "Service Unavailable").

Definition env_unavailable : Env Db :=
  mkEnv (Ok unavailable) (Ok (neon_sql Sample.accepts_all))
        "2025-07-12T00:00:00.000Z".

(** A row object as JSON. *)
Definition stored_json (r : StoredMovie) : json :=
  JObj [("title", of_nullable (col_title r));
        ("poster_url", of_nullable (col_poster_url r));
        ("link", of_nullable (col_link r));
        ("year", of_nullable (col_year r));
        ("country", of_nullable (col_country r));
        ("genre", of_nullable (col_genre r));
        ("has_streaming", JBool (col_has_streaming r));
        ("updated_at", JNum (col_updated_at r))].

Definition stats_json (st : Query.Stats) : json :=
  JObj [("total_movies", JNum (Query.total_movies st));
        ("last_updated",
         match Query.last_updated st with
         | Some t => JNum t
         | None => JNull
         end)].

Definition no_fault (db : Db) : option Error := None.

(** A router that fits a pattern to a path by equality, and answers 404
    when no route fits. *)
Definition not_found : Response :=
  mkResponse (JObj [("status", JNum 404); ("error", JStr "Not Found")])
             404 [].

Definition worker_env : Routes.WorkerEnv Db StoredMovie Query.Stats :=
  Routes.mkWorkerEnv
    (Sample.env Sample.accepts_all)
    (Ok (Query.neon_movies Query.sort_desc no_fault))
    (Ok (Query.neon_stats no_fault)).

(** A table of three rows, one of another year. *)
Definition stored_old : StoredMovie :=
  mkStored (Some "Alien") None None (Some "1979") None None false 950.

Definition db_three : Db :=
  mkDb [Sample.stored_other; stored_old;
        mkStored (Some "Dune") None None (Some "2025") None None false 990]
       1000.

End Scene.

(** The record the cheerio extractor reads off [Sample.inception]. *)
Definition inception_record : Movie :=
  mkMovie (Some "Inception")
          (Some "https://flixpatrol.com/p/inception.jpg")
          (Some "https://flixpatrol.com/title/inception")
          (Some "2025") (Some "United States") (Some "Sci-Fi") false true.

(** [s.slice(n)] *)
Fixpoint drop (n : nat) (s : string) : string :=
  match n, s with
  | S n', String _ s' => drop n' s'
  | _, _ => s
  end.

(* ================================================================== *)
(** * The handle with the clock running *)

Module Ticking.

Import Store.

(** The handle [neon] returns, on a clock that moves: each statement is
    awaited on its own, and [NOW()] of the next one reads the clock
    where the wait left it.  [elapsed movie db] is how far the clock
    moves while the statement for [movie], issued on [db], is awaited;
    it moves as well when the statement is refused.  With a clock that
    stands still this is [Store.neon_sql]. *)
Definition neon_sql (elapsed : Movie -> Db -> nat)
           (rejects : Movie -> Db -> option Error)
  : Movie -> M Db unit :=
  fun movie db =>
    match rejects movie db with
    | Some e =>
        (Throw e, mkDb (movies_table db) (now db + elapsed movie db))
    | None =>
        (Ok tt, mkDb (upsert (now db) movie (movies_table db))
                     (now db + elapsed movie db))
    end.

(** The store after the statement for [movie], accepted or refused. *)
Definition after (elapsed : Movie -> Db -> nat)
           (rejects : Movie -> Db -> option Error)
           (movie : Movie) (db : Db) : Db :=
  snd (neon_sql elapsed rejects movie db).

(** The statements of a batch that the storage accepted, in order, each
    with the instant its [NOW()] read. *)
Fixpoint accepted_at (elapsed : Movie -> Db -> nat)
         (rejects : Movie -> Db -> option Error)
         (movies : list Movie) (db : Db) : list (nat * Movie) :=
  match movies with
  | [] => []
  | movie :: rest =>
      let following :=
        accepted_at elapsed rejects rest (after elapsed rejects movie db) in
      match rejects movie db with
      | Some _ => following
      | None => (now db, movie) :: following
      end
  end.

(** The clock after the batch. *)
Fixpoint clock_after (elapsed : Movie -> Db -> nat)
         (rejects : Movie -> Db -> option Error)
         (movies : list Movie) (db : Db) : nat :=
  match movies with
  | [] => now db
  | movie :: rest =>
      clock_after elapsed rejects rest (after elapsed rejects movie db)
  end.

(** The table after the statements of [stamped], each at its instant. *)
Definition upsert_each (stamped : list (nat * Movie))
           (rows : list StoredMovie) : list StoredMovie :=
  fold_left (fun table tm => upsert (fst tm) (snd tm) table) stamped rows.

End Ticking.

(** A row the cheerio extractor gives no record for: the [try] block
    throws on it, or it runs through and finds no title or no label. *)
Definition unreadable {E} (Q : api E) (row : E) : Prop :=
  malformed Q row \/ row_body Q [] row = Ok [].

(** A fragment [parseMovieData] gives no record for: no title, or no
    label. *)
Definition lacks_anchor (row : string) : Prop :=
  Regex.match_group Parse.re_title 1 row = None
  \/ includes "Movie" row = false.

(** A fragment with a title and the label. *)
Definition has_anchors (row : string) : Prop :=
  Regex.match_group Parse.re_title 1 row <> None
  /\ includes "Movie" row = true.

(* ================================================================== *)
(** * Rows that tell the two extractors apart, and pages with a bad row *)

Module Cases.

Import Dom.

(** A series whose poster is titled Movie Night; its text says
    TV Show. *)
Definition tv_row : node :=
  Element "tr" [("class", "table-group")]
    [Element "td" []
       [Element "img" [("alt", "Movie Night"); ("src", "/p/mn.jpg")] []];
     Element "td" [] [Text "TV Show"]].

(** The same row as markup. *)
Definition html_tv : string :=
  ("<table>" ++ Parse.row_marker
   ++ "<td><img alt=" ++ Parse.q ++ "Movie Night" ++ Parse.q
   ++ " src=" ++ Parse.q ++ "/p/mn.jpg" ++ Parse.q ++ "></td>"
   ++ "<td>TV Show</td></tr></table>")%string.

(** A film whose label is set in two pieces: Mo, then vie in bold. *)
Definition split_label_row : node :=
  Element "tr" [("class", "table-group")]
    [Element "td" []
       [Element "img" [("alt", "Heat"); ("src", "/p/heat.jpg")] []];
     Element "td" [] [Text "Mo"; Element "b" [] [Text "vie"]]].

Definition html_split_label : string :=
  ("<table>" ++ Parse.row_marker
   ++ "<td><img alt=" ++ Parse.q ++ "Heat" ++ Parse.q
   ++ " src=" ++ Parse.q ++ "/p/heat.jpg" ++ Parse.q ++ "></td>"
   ++ "<td>Mo<b>vie</b></td></tr></table>")%string.

(** A page of three rows, the second with an element the brittle
    library cannot read. *)
Definition page_broken : node :=
  Sample.page [Sample.inception; Sample.broken; Sample.alpha].

(** A page of three rows, the second without a poster. *)
Definition page_untitled : node :=
  Sample.page [Sample.inception; Sample.untitled; Sample.alpha].

(** Markup of three rows, the second without a title. *)
Definition row_markup (alt : string) : string :=
  ("<td><img alt=" ++ Parse.q ++ alt ++ Parse.q ++ "></td>"
   ++ "<td>Movie</td></tr>")%string.

Definition row_untitled : string := "<td>Movie</td></tr>".

Definition html_untitled : string :=
  ("<table>" ++ Parse.row_marker ++ row_markup "Alpha"
   ++ Parse.row_marker ++ row_untitled
   ++ Parse.row_marker ++ row_markup "Gamma")%string.

Definition fetched_page (html : string) : FetchResponse :=
  mkFetchResponse true 200 (Ok html).

End Cases.

(* ================================================================== *)
(** * The filter *)

Section FilterFacts.

Lemma keep_spec (target : string) (movie : Movie) :
  keep target movie = true
  <-> year movie = Some target /\ hasStreaming movie = false.
Proof.
  unfold keep, year_is.
  destruct (year movie) as [y|]; simpl.
  - rewrite andb_true_iff, negb_true_iff, String.eqb_eq.
    split; intros [H1 H2]; split; congruence.
  - split; [discriminate | intros [H _]; discriminate].
Qed.

Lemma filter_subseq {A} (p : A -> bool) (l : list A) :
  subseq (filter p l) l.
Proof.
  induction l as [|x l IH]; simpl.
  - constructor.
  - destruct (p x); now constructor.
Qed.

Lemma filter_twice {A} (p : A -> bool) (l : list A) :
  filter p (filter p l) = filter p l.
Proof.
  induction l as [|x l IH]; simpl; [reflexivity|].
  destruct (p x) eqn:Hp; simpl; [rewrite Hp, IH|]; auto.
Qed.

End FilterFacts.

(** C8: the filter of the handlers is [filter_year] at ['2025']; for every
    target year it returns a subsequence of its input, holding exactly the
    records whose year is the target and whose streaming flag is false, and
    filtering its own output again changes nothing. *)
Theorem filter_year_idempotent :
  forall (target : string) (records : list Movie),
    filtered2025 records = filter_year "2025" records
    /\ subseq (filter_year target records) records
    /\ (forall movie,
           In movie (filter_year target records)
           <-> In movie records
               /\ year movie = Some target /\ hasStreaming movie = false)
    /\ filter_year target (filter_year target records)
       = filter_year target records.
Proof.
  intros target records. unfold filter_year.
  split; [reflexivity|].
  split; [apply filter_subseq|].
  split; [|apply filter_twice].
  intro movie. rewrite filter_In, keep_spec. tauto.
Qed.

(* ================================================================== *)
(** * The loop of the Reconciler *)

Section LoopFacts.

Variable S : Type.
Variable sql : Movie -> Store.M S unit.

Lemma store_loop_attempts (movies : list Movie) :
  forall (count : nat) (s : S),
    Store.store_loop sql movies count s
    = (Ok (count + successes (fst (attempts sql movies s))),
       snd (attempts sql movies s)).
Proof.
  induction movies as [|movie rest IH]; intros count s; simpl.
  - unfold Store.ret, successes. simpl. now rewrite Nat.add_0_r.
  - unfold Store.bind at 1. unfold Store.try_catch, Store.bind, Store.ret.
    destruct (sql movie s) as [[[]|e] s1]; simpl;
      rewrite IH; destruct (attempts sql rest s1) as [flags s2]; simpl;
      unfold successes; simpl; f_equal; f_equal; lia.
Qed.

Lemma attempts_length (movies : list Movie) :
  forall s, List.length (fst (attempts sql movies s)) = List.length movies.
Proof.
  induction movies as [|movie rest IH]; intro s; simpl; [reflexivity|].
  destruct (sql movie s) as [r s1]. specialize (IH s1).
  destruct (attempts sql rest s1) as [flags s2]. simpl in *. now rewrite IH.
Qed.

Lemma successes_le (flags : list bool) :
  successes flags <= List.length flags.
Proof. unfold successes. apply filter_length_le. Qed.

Lemma stored_le (movies : list Movie) (s : S) :
  successes (fst (attempts sql movies s)) <= List.length movies.
Proof. rewrite <- (attempts_length movies s). apply successes_le. Qed.

(** A statement that throws is caught: the loop goes on with the next
    record, the count as it was. *)
Lemma store_loop_caught (movie : Movie) (rest : list Movie)
      (count : nat) (s s1 : S) (e : Error) :
  sql movie s = (Throw e, s1) ->
  Store.store_loop sql (movie :: rest) count s
  = Store.store_loop sql rest count s1.
Proof.
  intro H. simpl. unfold Store.bind at 1.
  unfold Store.try_catch, Store.bind, Store.ret. now rewrite H.
Qed.

Lemma store_loop_stored (movie : Movie) (rest : list Movie)
      (count : nat) (s s1 : S) :
  sql movie s = (Ok tt, s1) ->
  Store.store_loop sql (movie :: rest) count s
  = Store.store_loop sql rest (Datatypes.S count) s1.
Proof.
  intro H. simpl. unfold Store.bind at 1.
  unfold Store.try_catch, Store.bind, Store.ret. now rewrite H.
Qed.

End LoopFacts.

(* ================================================================== *)
(** * The route handlers *)

Section RouteFacts.

Import Store Router.

Variable S : Type.
Variable scrape : result FetchResponse -> result (list Movie).

(** A run of [/scheduled] ends in one of two ways, and never throws. *)
Lemma scheduled_cases (env : Env S) (s : S) :
  (exists scrapedData sql,
      scrape (fetched env) = Ok scrapedData
      /\ getDb env = Ok sql
      /\ scheduled scrape env s
         = (Ok (mkResponse
                  (summary (isoNow env) (List.length scrapedData)
                     (List.length (filtered2025 scrapedData))
                     (successes
                        (fst (attempts sql (filtered2025 scrapedData) s))))
                  200 []),
            snd (attempts sql (filtered2025 scrapedData) s)))
  \/ (exists e,
         (scrape (fetched env) = Throw e
          \/ exists d, scrape (fetched env) = Ok d /\ getDb env = Throw e)
         /\ scheduled scrape env s
            = (Ok (failure_scheduled (isoNow env) e), s)).
Proof.
  unfold scheduled, try_catch, bind, lift, failure_scheduled.
  destruct (scrape (fetched env)) as [scrapedData|e];
    [|right; exists e; split; [now left | reflexivity]].
  destruct (getDb env) as [sql|e];
    [|right; exists e; split; [right; now exists scrapedData | reflexivity]].
  left. exists scrapedData, sql. repeat split.
  unfold storeMoviesInDatabase. rewrite store_loop_attempts. reflexivity.
Qed.

Lemma scrape_now_cases (env : Env S) (s : S) :
  (exists scrapedData sql,
      scrape (fetched env) = Ok scrapedData
      /\ getDb env = Ok sql
      /\ fst (scrape_now scrape env s)
         = Ok (mkResponse
                 (JObj [("success", JBool true);
                        ("timestamp", JStr (isoNow env));
                        ("totalScraped", JNum (List.length scrapedData));
                        ("filtered2025Count",
                         JNum (List.length (filtered2025 scrapedData)));
                        ("storedCount",
                         JNum (successes
                                 (fst (attempts sql
                                         (filtered2025 scrapedData) s))));
                        ("movies",
                         JArr (map movie_json (filtered2025 scrapedData)))])
                 200 corsHeaders))
  \/ (exists e,
         fst (scrape_now scrape env s)
         = Ok (mkResponse (JObj [("success", JBool false);
                                 ("error", JStr (message e))])
                          500 corsHeaders)).
Proof.
  unfold scrape_now, try_catch, bind, lift.
  destruct (scrape (fetched env)) as [scrapedData|e];
    [|right; now exists e].
  destruct (getDb env) as [sql|e]; [|right; now exists e].
  left. exists scrapedData, sql. repeat split.
  unfold storeMoviesInDatabase. rewrite store_loop_attempts. reflexivity.
Qed.

End RouteFacts.

(** C2: the loop never throws; it attempts every record in turn, each on
    the store the one before left, whether that one succeeded or threw; the
    count it returns is the number of statements that succeeded.  With
    three filtered records of which the storage refuses one, the run
    answers 200 with filtered2025Count 3 and storedCount 2. *)
Theorem storedCount_counts_successes :
  (forall (S : Type) (sql : Movie -> Store.M S unit)
          (movies : list Movie) (s : S),
      Store.storeMoviesInDatabase sql movies s
      = (Ok (successes (fst (attempts sql movies s))),
         snd (attempts sql movies s))
      /\ List.length (fst (attempts sql movies s)) = List.length movies)
  /\ (exists resp db',
         Router.scheduled
           (scrapeFlixPatrol
              (Sample.lib (Sample.page [Sample.alpha; Sample.beta;
                                        Sample.gamma])))
           (Sample.env Sample.rejects_beta) Sample.empty_db
         = (Ok resp, db')
         /\ Router.succeeded resp = true
         /\ Router.http_status resp = 200
         /\ prop "filtered2025Count" (Router.body resp) = Some (JNum 3)
         /\ prop "storedCount" (Router.body resp) = Some (JNum 2)
         /\ map Store.col_title (Store.movies_table db')
            = [Some "Alpha"; Some "Gamma"]).
Proof.
  split.
  - intros S sql movies s. split.
    + unfold Store.storeMoviesInDatabase. now rewrite store_loop_attempts.
    + apply attempts_length.
  - eexists _, _. split; [vm_compute; reflexivity|].
    repeat split.
Qed.

(** C3, as the code has it: a run of [/scheduled] whose scrape and whose
    [getDb] do not throw answers 200 with the object
    {success, timestamp, totalScraped, filtered2025Count, storedCount,
    message}, also when nothing was stored; the number of records that
    passed the filter is under the name filtered2025Count. *)
Theorem success_summary_shape :
  forall (S : Type) (scrape : result FetchResponse -> result (list Movie))
         (env : Router.Env S) (s : S)
         (scrapedData : list Movie) (sql : Movie -> Store.M S unit),
    scrape (Router.fetched env) = Ok scrapedData ->
    Router.getDb env = Ok sql ->
    exists resp s' stored,
      Router.scheduled scrape env s = (Ok resp, s')
      /\ Router.succeeded resp = true
      /\ Router.http_status resp = 200
      /\ Router.body resp
         = summary (Router.isoNow env) (List.length scrapedData)
                   (List.length (filtered2025 scrapedData)) stored
      /\ keys (Router.body resp)
         = ["success"; "timestamp"; "totalScraped"; "filtered2025Count";
            "storedCount"; "message"]
      /\ prop "filtered2025Count" (Router.body resp)
         = Some (JNum (List.length (filtered2025 scrapedData)))
      /\ prop "filteredCount" (Router.body resp) = None.
Proof.
  intros S scrape env s scrapedData sql Hscrape Hdb.
  destruct (scheduled_cases scrape env s)
    as [(d & q & Hd & Hq & Hrun) | (e & [He | (d & _ & He)] & _)];
    [| congruence | congruence].
  rewrite Hscrape in Hd. injection Hd as <-.
  eexists _, _, _. split; [exact Hrun|].
  repeat split.
Qed.

Lemma success_summary_shape_witness :
  exists resp s' stored,
    Router.scheduled (scrapeFlixPatrol (Sample.lib (Sample.page [])))
                     (Sample.env Sample.accepts_all) Sample.empty_db
    = (Ok resp, s')
    /\ Router.succeeded resp = true
    /\ Router.http_status resp = 200
    /\ Router.body resp = summary "2025-07-12T00:00:00.000Z" 0 0 stored
    /\ keys (Router.body resp)
       = ["success"; "timestamp"; "totalScraped"; "filtered2025Count";
          "storedCount"; "message"]
    /\ prop "filtered2025Count" (Router.body resp) = Some (JNum 0)
    /\ prop "filteredCount" (Router.body resp) = None.
Proof.
  exact (@success_summary_shape
           Store.Db (scrapeFlixPatrol (Sample.lib (Sample.page [])))
           (Sample.env Sample.accepts_all) Sample.empty_db
           [] (Store.neon_sql Sample.accepts_all) eq_refl eq_refl).
Defined.

(** C3, as stated, fails: the summary of a successful run that stored
    nothing has no field named filteredCount. *)
Lemma summary_lacks_filteredCount :
  exists resp s',
    Router.scheduled (scrapeFlixPatrol (Sample.lib (Sample.page [])))
                     (Sample.env Sample.accepts_all) Sample.empty_db
    = (Ok resp, s')
    /\ Router.succeeded resp = true
    /\ ~ In "filteredCount" (keys (Router.body resp))
    /\ prop "filteredCount" (Router.body resp) = None.
Proof.
  eexists _, _. split; [vm_compute; reflexivity|].
  split; [reflexivity|]. split; [|reflexivity].
  simpl. intros [H|[H|[H|[H|[H|[H|[]]]]]]]; discriminate.
Qed.

(** C10: the counts a successful run reports are ordered,
    0 <= storedCount <= filtered2025Count <= totalScraped, on both the
    scheduled and the manual route. *)
Theorem counts_ordered :
  forall (S : Type) (scrape : result FetchResponse -> result (list Movie))
         (env : Router.Env S) (s : S) (resp : Router.Response),
    (fst (Router.scheduled scrape env s) = Ok resp
     \/ fst (Router.scrape_now scrape env s) = Ok resp) ->
    Router.succeeded resp = true ->
    exists total kept stored,
      prop "totalScraped" (Router.body resp) = Some (JNum total)
      /\ prop "filtered2025Count" (Router.body resp) = Some (JNum kept)
      /\ prop "storedCount" (Router.body resp) = Some (JNum stored)
      /\ 0 <= stored /\ stored <= kept /\ kept <= total.
Proof.
  intros S scrape env s resp Hrun Hok.
  assert (Hkept : forall d : list Movie,
             List.length (filtered2025 d) <= List.length d)
    by (intro d; apply filter_length_le).
  destruct Hrun as [Hrun | Hrun].
  - destruct (scheduled_cases scrape env s)
      as [(d & q & _ & _ & Hs) | (e & _ & Hs)];
      rewrite Hs in Hrun; simpl in Hrun; injection Hrun as <-;
      [|discriminate Hok].
    eexists _, _, _. repeat split; try reflexivity;
      [lia | apply stored_le | apply Hkept].
  - destruct (scrape_now_cases scrape env s)
      as [(d & q & _ & _ & Hs) | (e & Hs)];
      rewrite Hs in Hrun; injection Hrun as <-; [|discriminate Hok].
    eexists _, _, _. repeat split; try reflexivity;
      [lia | apply stored_le | apply Hkept].
Qed.

Lemma counts_ordered_witness :
  exists total kept stored,
    prop "totalScraped"
         (summary "2025-07-12T00:00:00.000Z" 3 3 2) = Some (JNum total)
    /\ prop "filtered2025Count"
            (summary "2025-07-12T00:00:00.000Z" 3 3 2) = Some (JNum kept)
    /\ prop "storedCount"
            (summary "2025-07-12T00:00:00.000Z" 3 3 2) = Some (JNum stored)
    /\ 0 <= stored /\ stored <= kept /\ kept <= total.
Proof.
  apply (@counts_ordered
           Store.Db
           (scrapeFlixPatrol
              (Sample.lib (Sample.page [Sample.alpha; Sample.beta;
                                        Sample.gamma])))
           (Sample.env Sample.rejects_beta) Sample.empty_db
           (Router.mkResponse (summary "2025-07-12T00:00:00.000Z" 3 3 2)
                              200 [])).
  - left. vm_compute. reflexivity.
  - reflexivity.
Defined.

(* ================================================================== *)
(** * The upsert statement *)

Section UpsertFacts.

Import Store.

Lemma conflict_found (movie : Movie) (rows : list StoredMovie)
      (i : nat) (r : StoredMovie) :
  nth_error rows i = Some r ->
  conflicts movie r = true ->
  existsb (conflicts movie) rows = true.
Proof.
  intros Hi Hc. apply existsb_exists. exists r.
  split; [eapply nth_error_In; eassumption | assumption].
Qed.

(** On a table that holds the key, the statement rewrites rows in place. *)
Lemma upsert_on_conflict (t : nat) (movie : Movie)
      (rows : list StoredMovie) :
  existsb (conflicts movie) rows = true ->
  upsert t movie rows
  = map (fun r => if conflicts movie r then do_update t movie r else r)
        rows.
Proof. intro H. unfold upsert. now rewrite H. Qed.

(** On a table that does not hold the key, it adds the row at the end. *)
Lemma upsert_fresh (t : nat) (movie : Movie) (rows : list StoredMovie) :
  existsb (conflicts movie) rows = false ->
  upsert t movie rows = rows ++ [excluded t movie].
Proof. intro H. unfold upsert. now rewrite H. Qed.

End UpsertFacts.

(** C9: when the table holds a row with the key (title, year) of the
    incoming record and the storage accepts the statement, that row keeps
    its title and year, takes posterUrl, link, country, genre and
    hasStreaming from the incoming record (a null among them included) and
    the instant of the statement as updated_at; no row is added and the
    rows of other keys stay as they were. *)
Theorem upsert_overwrites_non_key_fields :
  forall (rejects : Movie -> Store.Db -> option Error) (movie : Movie)
         (db : Store.Db) (i : nat) (r : Store.StoredMovie),
    rejects movie db = None ->
    nth_error (Store.movies_table db) i = Some r ->
    Store.conflicts movie r = true ->
    exists db' r',
      Store.neon_sql rejects movie db = (Ok tt, db')
      /\ nth_error (Store.movies_table db') i = Some r'
      /\ Store.col_title r' = Store.col_title r
      /\ Store.col_year r' = Store.col_year r
      /\ Store.col_poster_url r' = posterUrl movie
      /\ Store.col_link r' = link movie
      /\ Store.col_country r' = country movie
      /\ Store.col_genre r' = genre movie
      /\ Store.col_has_streaming r' = hasStreaming movie
      /\ Store.col_updated_at r' = Store.now db
      /\ List.length (Store.movies_table db')
         = List.length (Store.movies_table db)
      /\ (forall j other,
             nth_error (Store.movies_table db) j = Some other ->
             Store.conflicts movie other = false ->
             nth_error (Store.movies_table db') j = Some other).
Proof.
  intros rejects movie db i r Hacc Hi Hc.
  unfold Store.neon_sql. rewrite Hacc.
  rewrite (upsert_on_conflict _ _ _ (conflict_found _ _ _ Hi Hc)).
  eexists _, _. split; [reflexivity|]. simpl.
  split; [rewrite nth_error_map, Hi; simpl; rewrite Hc; reflexivity|].
  repeat split.
  - apply length_map.
  - intros j other Hj Hn. now rewrite nth_error_map, Hj; simpl; rewrite Hn.
Qed.

Lemma upsert_overwrites_non_key_fields_witness :
  exists db' r',
    Store.neon_sql Sample.accepts_all Sample.inception_again Sample.db_two
    = (Ok tt, db')
    /\ nth_error (Store.movies_table db') 1 = Some r'
    /\ Store.col_title r' = Some "Inception"
    /\ Store.col_year r' = Some "2025"
    /\ Store.col_poster_url r' = None
    /\ Store.col_link r' = Some "https://flixpatrol.com/title/inception"
    /\ Store.col_country r' = Some "United States"
    /\ Store.col_genre r' = Some "Sci-Fi"
    /\ Store.col_has_streaming r' = false
    /\ Store.col_updated_at r' = 1000
    /\ List.length (Store.movies_table db') = 2
    /\ (forall j other,
           nth_error (Store.movies_table Sample.db_two) j = Some other ->
           Store.conflicts Sample.inception_again other = false ->
           nth_error (Store.movies_table db') j = Some other).
Proof.
  exact (@upsert_overwrites_non_key_fields
           Sample.accepts_all Sample.inception_again Sample.db_two 1
           Sample.stored_inception eq_refl eq_refl eq_refl).
Defined.

(* ================================================================== *)
(** * The row loop of the cheerio extractor *)

Section ScrapeFacts.

Variable E : Type.
Variable Q : api E.

(** The [try] block adds to [movies] and reads nothing from it. *)
Lemma row_body_acc (movies : list Movie) (row : E) :
  row_body Q movies row
  = match row_body Q [] row with
    | Ok emitted => Ok (movies ++ emitted)
    | Throw e => Throw e
    end.
Proof.
  unfold row_body, JS.bind.
  repeat match goal with
         | |- context [match ?c with Ok _ => _ | Throw _ => _ end] =>
             lazymatch c with
             | find _ _ _ => destruct c
             | attr _ _ _ => destruct c
             | text _ _ => destruct c
             end; try reflexivity
         end.
  match goal with
  | |- context [if ?b then _ else _] => destruct b
  end; simpl; now rewrite ?app_nil_r.
Qed.

Lemma row_callback_acc (movies : list Movie) (row : E) :
  row_callback Q movies row = movies ++ row_callback Q [] row.
Proof.
  unfold row_callback, recover, JS.try_catch.
  rewrite (row_body_acc movies row).
  destruct (row_body Q [] row); simpl; now rewrite ?app_nil_r.
Qed.

Lemma fold_rows (rows : list E) :
  forall movies,
    fold_left (row_callback Q) rows movies
    = movies ++ flat_map (row_callback Q []) rows.
Proof.
  induction rows as [|row rows IH]; intro movies; simpl.
  - now rewrite app_nil_r.
  - rewrite IH, row_callback_acc, app_assoc. reflexivity.
Qed.

Lemma malformed_skipped (row : E) :
  malformed Q row -> row_callback Q [] row = [].
Proof.
  intros [e He]. unfold row_callback, recover, JS.try_catch.
  now rewrite He.
Qed.

Lemma well_formed_emitted (row : E) :
  well_formed Q row -> exists movie, row_callback Q [] row = [movie].
Proof.
  intros [movie Hm]. exists movie.
  unfold row_callback, recover, JS.try_catch. now rewrite Hm.
Qed.

Lemma well_formed_count (rows : list E) :
  Forall (well_formed Q) rows ->
  List.length (flat_map (row_callback Q []) rows) = List.length rows.
Proof.
  induction 1 as [|row rows Hrow _ IH]; simpl; [reflexivity|].
  destruct (well_formed_emitted Hrow) as [movie ->]. simpl. now rewrite IH.
Qed.

(** The callback emits at most one record, and only one with a title. *)
Lemma row_body_emits (row : E) (emitted : list Movie) :
  row_body Q [] row = Ok emitted ->
  emitted = []
  \/ exists movie, emitted = [movie] /\ truthy (title movie) = true
                   /\ isMovie movie = true.
Proof.
  unfold row_body, JS.bind.
  repeat match goal with
         | |- context [match ?c with Ok _ => _ | Throw _ => _ end] =>
             lazymatch c with
             | find _ _ _ => destruct c
             | attr _ _ _ => destruct c
             | text _ _ => destruct c
             end; try discriminate
         end.
  match goal with
  | |- context [if ?b then _ else _] => destruct b eqn:Hb
  end; intro H; injection H as <-; [right | now left].
  eexists. split; [reflexivity|]. simpl.
  apply andb_true_iff in Hb. destruct Hb as [Ht _].
  split; [exact Ht | reflexivity].
Qed.

End ScrapeFacts.

(* ================================================================== *)
(** * The matcher finds exactly what the pattern matches *)

Section RegexFacts.

Import Regex RegexSem.

Variable ic : bool.

Lemma match_star_sound {R} (p : charset) (s : string)
      (k : string -> option R) (r : R) :
  match_star p s k = Some r ->
  exists s', run_of p s s' /\ k s' = Some r.
Proof.
  induction s as [|c s IH]; simpl; intro H.
  - exists EmptyString. split; [constructor | exact H].
  - destruct (p c) eqn:Hp.
    + destruct (match_star p s k) as [r'|] eqn:Hs.
      * injection H as <-. destruct (IH eq_refl) as (s' & Hrun & Hk).
        exists s'. split; [now constructor | exact Hk].
      * exists (String c s). split; [constructor | exact H].
    + exists (String c s). split; [constructor | exact H].
Qed.

Lemma match_star_complete {R} (p : charset) (s s' : string)
      (k : string -> option R) :
  run_of p s s' -> k s' <> None -> match_star p s k <> None.
Proof.
  induction 1 as [s|c s s' Hp Hrun IH]; intro Hk.
  - destruct s as [|c s]; simpl; [exact Hk|].
    destruct (p c); [|exact Hk].
    destruct (match_star p s k); [discriminate | exact Hk].
  - simpl. rewrite Hp.
    destruct (match_star p s k) eqn:Hs; [discriminate|].
    now elim (IH Hk).
Qed.

Lemma m_sound (r : regex) :
  forall s caps k c,
    m ic r s caps k = Some c ->
    exists s' caps', matches ic r s s' caps caps' /\ k s' caps' = Some c.
Proof.
  induction r as [w|r1 IH1 r2 IH2|r1 IH1 r2 IH2|p|p|n p|i r IH];
    intros s caps k c H; simpl in H.
  - destruct (match_lit ic w s) as [s'|] eqn:Hw; [|discriminate].
    exists s', caps. split; [now constructor | exact H].
  - apply IH1 in H. destruct H as (s1 & c1 & H1 & H).
    apply IH2 in H. destruct H as (s2 & c2 & H2 & H).
    exists s2, c2. split; [econstructor; eassumption | exact H].
  - destruct (m ic r1 s caps k) as [c'|] eqn:Hl.
    + injection H as <-. apply IH1 in Hl.
      destruct Hl as (s' & c1 & H1 & Hk).
      exists s', c1. split; [now apply M_AltL | exact Hk].
    + apply IH2 in H. destruct H as (s' & c1 & H1 & Hk).
      exists s', c1. split; [now apply M_AltR | exact Hk].
  - apply match_star_sound in H. destruct H as (s' & Hrun & Hk).
    exists s', caps. split; [now constructor | exact Hk].
  - destruct s as [|a s]; [discriminate|].
    destruct (p a) eqn:Hp; [|discriminate].
    apply match_star_sound in H. destruct H as (s' & Hrun & Hk).
    exists s', caps. split; [now constructor | exact Hk].
  - destruct (match_times n p s) as [s'|] eqn:Ht; [|discriminate].
    exists s', caps. split; [now constructor | exact H].
  - apply IH in H. destruct H as (s' & c1 & H1 & Hk).
    exists s', ((i, consumed s s') :: c1).
    split; [now constructor | exact Hk].
Qed.

Lemma m_complete (r : regex) :
  forall s s' caps caps' k,
    matches ic r s s' caps caps' ->
    k s' caps' <> None ->
    m ic r s caps k <> None.
Proof.
  intros s s' caps caps' k H. revert k.
  induction H as [w s s' caps Hw
                 |r1 r2 s s1 s2 c0 c1 c2 _ IH1 _ IH2
                 |r1 r2 s s' c0 c1 _ IH
                 |r1 r2 s s' c0 c1 _ IH
                 |p s s' caps Hrun
                 |p a s s' caps Hp Hrun
                 |n p s s' caps Ht
                 |i r s s' c0 c1 _ IH];
    intros k Hk; simpl.
  - now rewrite Hw.
  - apply IH1. now apply IH2.
  - destruct (m ic r1 s c0 k) eqn:Hl; [discriminate|].
    now elim (IH k Hk).
  - destruct (m ic r1 s c0 k); [discriminate|]. now apply IH.
  - now apply match_star_complete with (s' := s').
  - rewrite Hp. now apply match_star_complete with (s' := s').
  - now rewrite Ht.
  - now apply IH.
Qed.

(** [exec] returns the groups of a match at some position. *)
Lemma exec_sound (r : regex) (s : string) (caps : captures) :
  exec ic r s = Some caps ->
  exists s0 s' caps',
    suffix_of s0 s /\ matches ic r s0 s' [] caps'
    /\ caps = (0, consumed s0 s') :: caps'.
Proof.
  induction s as [|a s IH]; simpl; intro H.
  - destruct (match_here ic r EmptyString) as [c|] eqn:Hm; [|discriminate].
    injection H as <-. apply m_sound in Hm.
    destruct Hm as (s' & caps' & Hmatch & Hk). injection Hk as <-.
    exists EmptyString, s', caps'. repeat split; [constructor | exact Hmatch].
  - destruct (match_here ic r (String a s)) as [c|] eqn:Hm.
    + injection H as <-. apply m_sound in Hm.
      destruct Hm as (s' & caps' & Hmatch & Hk). injection Hk as <-.
      exists (String a s), s', caps'.
      repeat split; [constructor | exact Hmatch].
    + destruct (IH H) as (s0 & s' & caps' & Hsuf & Hmatch & ->).
      exists s0, s', caps'. repeat split; [now constructor | exact Hmatch].
Qed.

(** [test] answers whether the pattern matches at some position. *)
Lemma test_spec (r : regex) (s : string) :
  test ic r s = true
  <-> exists s0 s' caps', suffix_of s0 s /\ matches ic r s0 s' [] caps'.
Proof.
  unfold test. split.
  - destruct (exec ic r s) as [caps|] eqn:He; [|discriminate]. intros _.
    destruct (exec_sound _ _ He) as (s0 & s' & caps' & Hsuf & Hm & _).
    now exists s0, s', caps'.
  - intros (s0 & s' & caps' & Hsuf & Hm).
    assert (Hx : exec ic r s <> None).
    { induction Hsuf as [s|a s s0 Hsuf IH].
      - assert (Hh : match_here ic r s <> None)
          by (eapply m_complete; [exact Hm | discriminate]).
        destruct s; simpl; destruct (match_here ic r _);
          try discriminate; now elim Hh.
      - simpl. destruct (match_here ic r (String a s)); [discriminate|].
        now apply IH. }
    destruct (exec ic r s); [reflexivity | now elim Hx].
Qed.

End RegexFacts.

(* ================================================================== *)
(** * The cheerio extractor over a document tree *)

Section DomFacts.

Import Dom.

Variable parse : string -> node.

(** What the callback does with one row of the tree: nothing throws, and
    the record, when there is one, is read off the row as follows. *)
Lemma dom_row_callback (row : node) :
  exists movie,
    row_callback (cheerio parse) [] row
    = (if truthy (title_of row) && includes "Movie" (rowText row)
       then [movie] else [])
    /\ row_body (cheerio parse) [] row
       = Ok (if truthy (title_of row) && includes "Movie" (rowText row)
             then [movie] else [])
    /\ title movie = title_of row
    /\ posterUrl movie
       = (if truthy (Some (posterSrc row))
          then Some (base_origin ++ posterSrc row)%string else None)
    /\ link movie
       = (if truthy (Some (linkHref row))
          then Some (base_origin ++ linkHref row)%string else None)
    /\ year movie = or_null (index (split "/" (fullDateText row)) 2)
    /\ hasStreaming movie = Regex.test true re_streaming (rowText row)
    /\ isMovie movie = true.
Proof.
  eexists. split; [|split].
  - unfold row_callback, recover, JS.try_catch, row_body.
    cbn [find attr text load cheerio JS.bind].
    unfold title_of, rowText.
    destruct (truthy _ && includes _ _); reflexivity.
  - unfold row_body.
    cbn [find attr text load cheerio JS.bind].
    unfold title_of, rowText.
    destruct (truthy _ && includes _ _); reflexivity.
  - repeat split.
Qed.

Lemma truthy_not_null (v : option string) :
  truthy (or_null v) = true <-> or_null v <> None.
Proof.
  unfold or_null. destruct (truthy v) eqn:Hv.
  - rewrite Hv. split; [intros _ ->; discriminate | reflexivity].
  - simpl. split; [discriminate | intro H; now elim H].
Qed.

Lemma dom_emits_iff (row : node) :
  (exists movie, row_callback (cheerio parse) [] row = [movie])
  <-> title_of row <> None /\ includes "Movie" (rowText row) = true.
Proof.
  destruct (dom_row_callback row) as (movie & -> & _).
  unfold title_of at 2. rewrite <- truthy_not_null. fold (title_of row).
  rewrite <- andb_true_iff.
  destruct (truthy (title_of row) && includes "Movie" (rowText row)).
  - split; [reflexivity | intros _; now exists movie].
  - split; [intros [m Hm]; discriminate | discriminate].
Qed.

Lemma dom_well_formed (row : node) :
  well_formed (cheerio parse) row
  <-> title_of row <> None /\ includes "Movie" (rowText row) = true.
Proof.
  rewrite <- dom_emits_iff. unfold well_formed.
  split; intros [movie H]; exists movie.
  - unfold row_callback, recover, JS.try_catch. now rewrite H.
  - destruct (dom_row_callback row) as (m & Hc & Hb & _).
    rewrite Hb. rewrite Hc in H. now rewrite H.
Qed.

Lemma dom_never_malformed (row : node) : ~ malformed (cheerio parse) row.
Proof.
  intros [e He]. destruct (dom_row_callback row) as (m & _ & Hb & _).
  rewrite Hb in He. discriminate.
Qed.

End DomFacts.

(* ================================================================== *)
(** * The patterns of the worker *)

Section PatternFacts.

Import Regex RegexSem Parse.

(** Takes a match of a sequence apart, down to its quantified classes. *)
Ltac invert_matches :=
  repeat match goal with
         | H : matches _ (Cat _ _) _ _ _ _ |- _ =>
             inversion H; subst; clear H
         | H : matches _ (Lit _) _ _ _ _ |- _ =>
             inversion H; subst; clear H
         | H : matches _ (Group _ _) _ _ _ _ |- _ =>
             inversion H; subst; clear H
         end.

Lemma run_of_length (p : charset) (s s' : string) :
  run_of p s s' -> String.length s' <= String.length s.
Proof. induction 1; simpl; lia. Qed.

Lemma consumed_nonempty (c : ascii) (s s' : string) :
  String.length s' <= String.length s ->
  consumed (String c s) s' <> EmptyString.
Proof.
  intro H. unfold consumed. simpl String.length.
  replace (S (String.length s) - String.length s')
    with (S (String.length s - String.length s')) by lia.
  simpl. discriminate.
Qed.

Lemma match_times_length (n : nat) (p : charset) :
  forall s s',
    match_times n p s = Some s' ->
    String.length s = n + String.length s'.
Proof.
  induction n as [|n IH]; intros s s' H; simpl in H.
  - injection H as <-. reflexivity.
  - destruct s as [|c s]; [discriminate|].
    destruct (p c); [|discriminate].
    simpl. now rewrite (IH _ _ H).
Qed.

Lemma match_times_take (n : nat) (p : charset) :
  forall s s',
    match_times n p s = Some s' ->
    match_times n p (take n s) = Some EmptyString.
Proof.
  induction n as [|n IH]; intros s s' H; simpl in H.
  - destruct s; reflexivity.
  - destruct s as [|c s]; [discriminate|].
    destruct (p c) eqn:Hp; [|discriminate].
    simpl. rewrite Hp. now apply IH with (s' := s').
Qed.

Lemma match_times_consumed (n : nat) (p : charset) (s s' : string) :
  match_times n p s = Some s' ->
  match_times n p (consumed s s') = Some EmptyString.
Proof.
  intro H. unfold consumed. rewrite (match_times_length _ _ _ H).
  replace (n + String.length s' - String.length s') with n by lia.
  now apply match_times_take with (s' := s').
Qed.

(** The title pattern captures at least one character. *)
Lemma title_match_nonempty (row t : string) :
  match_group re_title 1 row = Some t -> t <> EmptyString.
Proof.
  unfold match_group.
  destruct (exec false re_title row) as [caps|] eqn:He; [|discriminate].
  apply exec_sound in He.
  destruct He as (s0 & s' & caps' & _ & Hm & ->).
  unfold re_title in Hm; simpl in Hm.
  invert_matches.
  match goal with
  | H : matches _ (Plus _) _ _ _ _ |- _ => inversion H; subst; clear H
  end.
  simpl. intro H. injection H as <-.
  apply consumed_nonempty.
  now apply run_of_length with (p := not_char dquote).
Qed.

(** The year pattern captures exactly four digits. *)
Lemma year_match_four_digits (row y : string) :
  match_group re_year 3 row = Some y -> four_digits y = true.
Proof.
  unfold match_group.
  destruct (exec false re_year row) as [caps|] eqn:He; [|discriminate].
  apply exec_sound in He.
  destruct He as (s0 & s' & caps' & _ & Hm & ->).
  unfold re_year in Hm; simpl in Hm.
  invert_matches.
  match goal with
  | H : matches _ (Times 4 _) _ _ _ _ |- _ => inversion H; subst; clear H
  end.
  simpl. intro H. injection H as <-.
  unfold four_digits.
  match goal with
  | H : match_times 4 _ _ = Some _ |- _ =>
      now rewrite (match_times_consumed _ _ _ H)
  end.
Qed.

(** ** The streaming pattern, under the [i] flag *)

Lemma match_lit_modulo_case (w : string) :
  forall s s',
    match_lit true w s = Some s'
    <-> exists mid, s = (mid ++ s')%string /\ same_modulo_case mid w.
Proof.
  unfold same_modulo_case.
  induction w as [|a w IH]; intros s s'; simpl.
  - split.
    + intro H. injection H as <-. exists EmptyString. now split.
    + intros (mid & -> & Hmid). destruct mid; [reflexivity | discriminate].
  - destruct s as [|b s].
    + split; [discriminate|].
      intros (mid & Hs & Hmid). destruct mid; discriminate.
    + unfold same_char.
      destruct (Ascii.eqb (canonicalize a) (canonicalize b)) eqn:Hab.
      * apply Ascii.eqb_eq in Hab. rewrite IH. split.
        -- intros (mid & -> & Hmid). exists (String b mid).
           split; [reflexivity|]. simpl. now rewrite Hmid, Hab.
        -- intros (mid & Hs & Hmid). destruct mid as [|c mid];
             [discriminate|].
           simpl in Hs, Hmid. injection Hs as <- ->.
           injection Hmid as _ Hmid. now exists mid.
      * split; [discriminate|].
        intros (mid & Hs & Hmid). destruct mid as [|c mid];
          [discriminate|].
        simpl in Hs, Hmid. injection Hs as <- ->.
        injection Hmid as Hc _. rewrite Hc, Ascii.eqb_refl in Hab.
        discriminate.
Qed.

Lemma suffix_of_app (s0 s : string) :
  suffix_of s0 s <-> exists pre, s = (pre ++ s0)%string.
Proof.
  split.
  - induction 1 as [s|c s s0 _ [pre ->]].
    + now exists EmptyString.
    + now exists (String c pre).
  - intros [pre ->]. induction pre; simpl; now constructor.
Qed.

Lemma streaming_matches (s s' : string) (c0 c1 : captures) :
  matches true re_streaming s s' c0 c1
  <-> c1 = c0
      /\ exists w, In w streaming_words /\ match_lit true w s = Some s'.
Proof.
  unfold re_streaming, streaming_words; simpl. split.
  - intro H.
    repeat match goal with
           | H : matches _ (Alt _ _) _ _ _ _ |- _ =>
               inversion H; subst; clear H
           end;
      match goal with
      | H : matches _ (Lit ?w) _ _ _ _ |- _ =>
          inversion H; subst; clear H; split; [reflexivity|]; exists w;
            split; [tauto | assumption]
      end.
  - intros [-> (w & Hin & Hw)].
    repeat (destruct Hin as [<- | Hin];
            [repeat (first [ apply M_Lit; exact Hw
                           | apply M_AltL; apply M_Lit; exact Hw
                           | apply M_AltR ])|]).
    destruct Hin.
Qed.

End PatternFacts.

(* ================================================================== *)
(** * The row loop of [parseMovieData] *)

Section ParseFacts.

Import Regex Parse.

(** What the callback does with one row of the markup: nothing throws,
    and the record, when there is one, holds what the patterns found. *)
Lemma parse_row_callback (movies : list Movie) (row : string) :
  exists movie,
    Parse.row_callback movies row
    = (movies ++ if truthy (match_group re_title 1 row)
                    && includes "Movie" row
                 then [movie] else [])
    /\ title movie = match_group re_title 1 row
    /\ posterUrl movie
       = option_map (String.append base_origin)
                    (match_group re_poster 1 row)
    /\ link movie
       = option_map (String.append base_origin) (match_group re_link 1 row)
    /\ year movie = match_group re_year 3 row
    /\ hasStreaming movie
       = existsb (fun w => includes w row) streaming_words
    /\ isMovie movie = includes "Movie" row.
Proof.
  eexists. split.
  - unfold Parse.row_callback, recover, JS.try_catch, Parse.row_body.
    cbn [title isMovie].
    destruct (truthy _ && includes _ _); [reflexivity|].
    now rewrite app_nil_r.
  - repeat split. cbn [hasStreaming streaming_words existsb].
    now rewrite orb_false_r, !orb_assoc.
Qed.

Lemma parse_row_callback_acc (movies : list Movie) (row : string) :
  Parse.row_callback movies row = movies ++ Parse.row_callback [] row.
Proof.
  unfold Parse.row_callback, recover, JS.try_catch, Parse.row_body.
  cbn [title isMovie].
  destruct (truthy _ && includes _ _); [reflexivity|].
  now rewrite app_nil_r.
Qed.

Lemma parse_fold_rows (rows : list string) :
  forall movies,
    fold_left Parse.row_callback rows movies
    = movies ++ flat_map (Parse.row_callback []) rows.
Proof.
  induction rows as [|row rows IH]; intro movies; simpl.
  - now rewrite app_nil_r.
  - rewrite IH, parse_row_callback_acc, app_assoc. reflexivity.
Qed.

Lemma parse_title_truthy (row : string) :
  truthy (match_group re_title 1 row) = true
  <-> match_group re_title 1 row <> None.
Proof.
  destruct (match_group re_title 1 row) as [t|] eqn:Ht; simpl.
  - apply title_match_nonempty in Ht.
    destruct (String.eqb_spec t EmptyString) as [->|_]; [now elim Ht|].
    split; [discriminate | reflexivity].
  - split; [discriminate | intro H; now elim H].
Qed.

Lemma parse_emits_iff (row : string) :
  (exists movie, Parse.row_callback [] row = [movie])
  <-> match_group re_title 1 row <> None /\ includes "Movie" row = true.
Proof.
  destruct (parse_row_callback [] row) as (movie & -> & _).
  rewrite <- parse_title_truthy, <- andb_true_iff. simpl.
  destruct (truthy (match_group re_title 1 row) && includes "Movie" row).
  - split; [reflexivity | intros _; now exists movie].
  - split; [intros [m Hm]; discriminate | discriminate].
Qed.

(** X15: every record [parseMovieData] emits carries a four-digit year,
    or none. *)
Lemma parse_year_four_digits (html : string) (movie : Movie) (y : string) :
  In movie (parseMovieData html) ->
  year movie = Some y ->
  four_digits y = true.
Proof.
  unfold parseMovieData. rewrite parse_fold_rows. simpl.
  rewrite in_flat_map. intros (row & _ & Hin) Hy.
  destruct (parse_row_callback [] row) as (m & Hc & _ & _ & _ & Hyear & _).
  rewrite Hc in Hin. simpl in Hin.
  destruct (truthy _ && includes _ _); [|destruct Hin].
  destruct Hin as [<- | []]. rewrite Hyear in Hy.
  now apply year_match_four_digits with (row := row).
Qed.

End ParseFacts.

(** X14: the flag of the cheerio extractor ignores case: it is set
    exactly when the row's text holds, in any casing, one of the words of
    the pattern. *)
Lemma cheerio_streaming_ignores_case (rowText : string) :
  Regex.test true re_streaming rowText = true
  <-> exists w pre mid post,
      In w streaming_words
      /\ rowText = (pre ++ mid ++ post)%string
      /\ same_modulo_case mid w.
Proof.
  rewrite test_spec. split.
  - intros (s0 & s' & caps' & Hsuf & Hm).
    apply suffix_of_app in Hsuf. destruct Hsuf as [pre ->].
    apply streaming_matches in Hm. destruct Hm as (_ & w & Hin & Hw).
    apply match_lit_modulo_case in Hw. destruct Hw as (mid & -> & Hmid).
    now exists w, pre, mid, s'.
  - intros (w & pre & mid & post & Hin & -> & Hmid).
    exists (mid ++ post)%string, post, [].
    split; [apply suffix_of_app; now exists pre|].
    apply streaming_matches. split; [reflexivity|].
    exists w. split; [exact Hin|].
    apply match_lit_modulo_case. now exists mid.
Qed.

(* ================================================================== *)
(** * What the extractors emit *)

(** Row by row: each extractor emits at most one record per row, and one
    exactly when the title read off the row is not null and the text it
    searches holds the label Movie, which is the row's visible text for
    the cheerio extractor and the row's markup for [parseMovieData]; the
    record carries that title, so no emitted record has a null title,
    whatever the library answers. *)
Lemma rows_emitted_iff_title_and_label :
  (forall (parse : string -> Dom.node) (rows : list Dom.node),
      fold_left (row_callback (Dom.cheerio parse)) rows []
      = flat_map (row_callback (Dom.cheerio parse) []) rows
      /\ (forall row,
             (exists movie, row_callback (Dom.cheerio parse) [] row = [movie])
             <-> Dom.title_of row <> None
                 /\ includes "Movie" (Dom.rowText row) = true)
      /\ (forall row,
             row_callback (Dom.cheerio parse) [] row = []
             \/ exists movie,
                 row_callback (Dom.cheerio parse) [] row = [movie]
                 /\ title movie = Dom.title_of row))
  /\ (forall html : string,
         Parse.parseMovieData html
         = flat_map (Parse.row_callback [])
                    (slice1 (split Parse.row_marker html))
         /\ (forall row,
                (exists movie, Parse.row_callback [] row = [movie])
                <-> Regex.match_group Parse.re_title 1 row <> None
                    /\ includes "Movie" row = true)
         /\ Forall (fun movie => title movie <> None)
                   (Parse.parseMovieData html))
  /\ (forall (E : Type) (Q : api E) (rows : list E),
         Forall (fun movie => title movie <> None)
                (fold_left (row_callback Q) rows [])).
Proof.
  split; [|split].
  - intros parse rows. split; [apply fold_rows|].
    split; [apply dom_emits_iff|].
    intro row.
    destruct (dom_row_callback parse row) as (movie & -> & _ & Ht & _).
    destruct (truthy _ && includes _ _); [right | now left].
    now exists movie.
  - intro html. unfold Parse.parseMovieData.
    rewrite parse_fold_rows. simpl.
    split; [reflexivity|]. split; [apply parse_emits_iff|].
    apply Forall_forall. intros movie Hin.
    apply in_flat_map in Hin. destruct Hin as (row & _ & Hin).
    destruct (parse_row_callback [] row) as (m & Hc & Ht & _).
    rewrite Hc in Hin. simpl in Hin.
    destruct (truthy (Regex.match_group Parse.re_title 1 row)) eqn:Htr;
      [|destruct Hin].
    destruct (includes "Movie" row); [|destruct Hin].
    destruct Hin as [<- | []]. rewrite Ht.
    now apply parse_title_truthy.
  - intros E Q rows. rewrite fold_rows. simpl.
    apply Forall_forall. intros movie Hin.
    apply in_flat_map in Hin. destruct Hin as (row & _ & Hin).
    unfold row_callback, recover, JS.try_catch in Hin.
    destruct (row_body Q [] row) as [emitted|e] eqn:Hb; [|destruct Hin].
    apply row_body_emits in Hb.
    destruct Hb as [-> | (m & -> & Ht & _)]; [destruct Hin|].
    destruct Hin as [<- | []].
    destruct (title m); [discriminate | discriminate Ht].
Qed.

(** C1 at two rows that tell the label in the markup from the label in
    the visible text.  A series whose poster is titled Movie Night and
    whose text says TV Show: [parseMovieData] emits it, the cheerio
    extractor does not.  A film whose label is set as Mo, then vie in
    bold: its visible text holds Movie and the cheerio extractor emits
    it, [parseMovieData] does not. *)
Theorem parseMovieData_reads_label_in_markup :
  (exists movie,
      Parse.scrapeFlixPatrol (Ok (Cases.fetched_page Cases.html_tv))
      = Ok [movie]
      /\ title movie = Some "Movie Night"
      /\ isMovie movie = true)
  /\ Dom.rowText Cases.tv_row = "TV Show"
  /\ includes "Movie" (Dom.rowText Cases.tv_row) = false
  /\ scrapeFlixPatrol (Sample.lib (Sample.page [Cases.tv_row]))
                      Sample.fetched_ok
     = Ok []
  /\ Parse.scrapeFlixPatrol
       (Ok (Cases.fetched_page Cases.html_split_label))
     = Ok []
  /\ Dom.rowText Cases.split_label_row = "Movie"
  /\ exists movie,
      scrapeFlixPatrol (Sample.lib (Sample.page [Cases.split_label_row]))
                       Sample.fetched_ok
      = Ok [movie]
      /\ title movie = Some "Heat".
Proof.
  split; [eexists; split; [vm_compute; reflexivity | split; reflexivity]|].
  split; [reflexivity|]. split; [reflexivity|].
  split; [vm_compute; reflexivity|].
  split; [vm_compute; reflexivity|].
  split; [reflexivity|].
  eexists. split; [vm_compute; reflexivity | reflexivity].
Qed.

Section SkipFacts.

Variable E : Type.
Variable Q : api E.

Lemma unreadable_skipped (row : E) :
  unreadable Q row -> row_callback Q [] row = [].
Proof.
  intros [H | H]; [now apply malformed_skipped|].
  unfold row_callback, recover, JS.try_catch. now rewrite H.
Qed.

End SkipFacts.

Lemma lacks_anchor_skipped (row : string) :
  lacks_anchor row -> Parse.row_callback [] row = [].
Proof.
  intro H. destruct (parse_row_callback [] row) as (m & -> & _). simpl.
  destruct H as [H | H]; rewrite H; [reflexivity|].
  now rewrite andb_false_r.
Qed.

Lemma has_anchors_count (rows : list string) :
  Forall has_anchors rows ->
  List.length (flat_map (Parse.row_callback []) rows) = List.length rows.
Proof.
  induction 1 as [|row rows Hrow _ IH]; simpl; [reflexivity|].
  apply parse_emits_iff in Hrow. destruct Hrow as [movie ->].
  simpl. now rewrite IH.
Qed.

(** C7: a row that gives no record, because the [try] block throws on it
    or because it lacks its title or its label, is skipped and the rows
    after it are still read.  With one such row among N rows that have
    both, either extractor gives the N records of the others, and its
    [scrapeFlixPatrol] returns them without throwing: the cheerio one for
    any behaviour of the library, [parseMovieData] on the fragments the
    row marker cuts the page into. *)
Theorem malformed_row_skipped :
  (forall (E : Type) (Q : api E) (before after : list E) (bad : E),
      unreadable Q bad ->
      Forall (well_formed Q) (before ++ after) ->
      fold_left (row_callback Q) (before ++ bad :: after) []
      = fold_left (row_callback Q) (before ++ after) []
      /\ List.length (fold_left (row_callback Q) (before ++ bad :: after) [])
         = List.length before + List.length after
      /\ (forall resp html doc,
             ok resp = true ->
             text_body resp = Ok html ->
             load Q html = Ok doc ->
             find Q (TagClass "tr" "table-group") [doc]
             = Ok (before ++ bad :: after) ->
             exists movies,
               scrapeFlixPatrol Q (Ok resp) = Ok movies
               /\ List.length movies
                  = List.length before + List.length after))
  /\ (forall (html : string) (before after : list string) (bad : string),
         slice1 (split Parse.row_marker html) = before ++ bad :: after ->
         lacks_anchor bad ->
         Forall has_anchors (before ++ after) ->
         Parse.parseMovieData html
         = flat_map (Parse.row_callback []) (before ++ after)
         /\ List.length (Parse.parseMovieData html)
            = List.length before + List.length after
         /\ (forall resp,
                ok resp = true ->
                text_body resp = Ok html ->
                exists movies,
                  Parse.scrapeFlixPatrol (Ok resp) = Ok movies
                  /\ List.length movies
                     = List.length before + List.length after)).
Proof.
  split.
  - intros E Q before after bad Hbad Hwf.
    assert (Hskip : fold_left (row_callback Q) (before ++ bad :: after) []
                    = fold_left (row_callback Q) (before ++ after) []).
    { rewrite !fold_rows. simpl. rewrite !flat_map_app. simpl.
      now rewrite (unreadable_skipped Hbad). }
    assert (Hlen : List.length
                     (fold_left (row_callback Q) (before ++ bad :: after) [])
                   = List.length before + List.length after).
    { rewrite Hskip, fold_rows. simpl.
      rewrite (well_formed_count Hwf). apply length_app. }
    split; [exact Hskip|]. split; [exact Hlen|].
    intros resp html doc Hok Htext Hload Hfind.
    eexists. split; [|exact Hlen].
    unfold scrapeFlixPatrol. simpl. rewrite Hok. simpl.
    rewrite Htext. simpl. rewrite Hload. simpl. now rewrite Hfind.
  - intros html before after bad Hrows Hbad Hwf.
    assert (Heq : Parse.parseMovieData html
                  = flat_map (Parse.row_callback []) (before ++ after)).
    { unfold Parse.parseMovieData. rewrite Hrows, parse_fold_rows. simpl.
      rewrite !flat_map_app. simpl.
      now rewrite (lacks_anchor_skipped Hbad). }
    assert (Hlen : List.length (Parse.parseMovieData html)
                   = List.length before + List.length after).
    { rewrite Heq, (has_anchors_count Hwf). apply length_app. }
    split; [exact Heq|]. split; [exact Hlen|].
    intros resp Hok Htext. eexists. split; [|exact Hlen].
    unfold Parse.scrapeFlixPatrol. simpl. rewrite Hok. simpl.
    now rewrite Htext.
Qed.

Lemma malformed_row_skipped_witness :
  (exists movies,
      scrapeFlixPatrol (Sample.brittle Cases.page_broken)
                       (Ok (Cases.fetched_page "<html>"))
      = Ok movies
      /\ List.length movies = 1 + 1)
  /\ (exists movies,
         scrapeFlixPatrol (Sample.lib Cases.page_untitled)
                          (Ok (Cases.fetched_page "<html>"))
         = Ok movies
         /\ List.length movies = 1 + 1)
  /\ (exists movies,
         Parse.scrapeFlixPatrol (Ok (Cases.fetched_page Cases.html_untitled))
         = Ok movies
         /\ List.length movies = 1 + 1).
Proof.
  split; [|split].
  - destruct (proj1 malformed_row_skipped
                    Dom.node (Sample.brittle Cases.page_broken)
                    [Sample.inception] [Sample.alpha] Sample.broken)
      as (_ & _ & H).
    + left. exists (mkError "cannot read the element").
      vm_compute. reflexivity.
    + repeat constructor; eexists; vm_compute; reflexivity.
    + apply (H (Cases.fetched_page "<html>") "<html>" Cases.page_broken);
        reflexivity.
  - destruct (proj1 malformed_row_skipped
                    Dom.node (Sample.lib Cases.page_untitled)
                    [Sample.inception] [Sample.alpha] Sample.untitled)
      as (_ & _ & H).
    + right. vm_compute. reflexivity.
    + repeat constructor; eexists; vm_compute; reflexivity.
    + apply (H (Cases.fetched_page "<html>") "<html>" Cases.page_untitled);
        reflexivity.
  - destruct (proj2 malformed_row_skipped
                    Cases.html_untitled
                    [Cases.row_markup "Alpha"] [Cases.row_markup "Gamma"]
                    Cases.row_untitled)
      as (_ & _ & H).
    + vm_compute. reflexivity.
    + left. vm_compute. reflexivity.
    + repeat constructor; try (vm_compute; discriminate);
        vm_compute; reflexivity.
    + apply (H (Cases.fetched_page Cases.html_untitled)); reflexivity.
Defined.

(** The callback of [parseMovieData] never throws: a row without a title
    or without the label is left out, and the rows after it are read. *)
Lemma parse_row_never_throws (movies : list Movie) (row : string) :
  exists emitted, Parse.row_body movies row = Ok emitted.
Proof.
  unfold Parse.row_body. cbn [title isMovie].
  destruct (truthy _ && includes _ _); eexists; reflexivity.
Qed.

(** C5, as the code has it: the poster path and the link path, when one
    was found, are put behind the base origin whatever they start with;
    nothing looks for a scheme.  Without a path the field is null. *)
Theorem poster_and_link_always_prefixed :
  (forall (parse : string -> Dom.node) (row : Dom.node) (movie : Movie),
      row_callback (Dom.cheerio parse) [] row = [movie] ->
      posterUrl movie
      = (if Dom.posterSrc row =? EmptyString then None
         else Some (base_origin ++ Dom.posterSrc row)%string)
      /\ link movie
         = (if Dom.linkHref row =? EmptyString then None
            else Some (base_origin ++ Dom.linkHref row)%string))
  /\ (forall (row : string) (movie : Movie),
         Parse.row_callback [] row = [movie] ->
         posterUrl movie
         = option_map (String.append base_origin)
                      (Regex.match_group Parse.re_poster 1 row)
         /\ link movie
            = option_map (String.append base_origin)
                         (Regex.match_group Parse.re_link 1 row)).
Proof.
  split.
  - intros parse row movie H.
    destruct (dom_row_callback parse row) as (m & Hc & _ & _ & Hp & Hl & _).
    rewrite Hc in H. destruct (truthy _ && includes _ _); [|discriminate].
    injection H as <-. rewrite Hp, Hl. simpl.
    destruct (Dom.posterSrc row =? EmptyString);
      destruct (Dom.linkHref row =? EmptyString); split; reflexivity.
  - intros row movie H.
    destruct (parse_row_callback [] row) as (m & Hc & _ & Hp & Hl & _).
    rewrite Hc in H. simpl in H.
    destruct (truthy _ && includes _ _); [|discriminate].
    injection H as <-. now split.
Qed.

Lemma poster_and_link_always_prefixed_witness :
  posterUrl (mkMovie (Some "Dune")
               (Some "https://flixpatrol.comhttps://cdn.example.com/dune.jpg")
               (Some "https://flixpatrol.comhttps://example.com/title/dune")
               (Some "2025") (Some "United States") (Some "Sci-Fi")
               false true)
  = Some "https://flixpatrol.comhttps://cdn.example.com/dune.jpg"
  /\ link (mkMovie (Some "Dune")
             (Some "https://flixpatrol.comhttps://cdn.example.com/dune.jpg")
             (Some "https://flixpatrol.comhttps://example.com/title/dune")
             (Some "2025") (Some "United States") (Some "Sci-Fi")
             false true)
     = Some "https://flixpatrol.comhttps://example.com/title/dune".
Proof.
  exact (proj1 poster_and_link_always_prefixed
               (fun _ => Sample.page [Sample.absolute]) Sample.absolute
               _ eq_refl).
Defined.

(** C5, as stated, fails: a poster and a link that are absolute URLs
    already come out with the base origin in front, in both extractors. *)
Lemma absolute_url_is_prefixed :
  (exists movie,
      row_callback (Sample.lib (Sample.page [Sample.absolute])) []
                   Sample.absolute = [movie]
      /\ has_scheme (Dom.posterSrc Sample.absolute) = true
      /\ has_scheme (Dom.linkHref Sample.absolute) = true
      /\ posterUrl movie <> Some (Dom.posterSrc Sample.absolute)
      /\ link movie <> Some (Dom.linkHref Sample.absolute)
      /\ posterUrl movie
         = Some "https://flixpatrol.comhttps://cdn.example.com/dune.jpg"
      /\ link movie
         = Some "https://flixpatrol.comhttps://example.com/title/dune")
  /\ (exists movie,
         Parse.parseMovieData Sample.html_absolute = [movie]
         /\ Regex.match_group Parse.re_poster 1 Sample.html_absolute
            = Some "https://cdn.example.com/dune.jpg"
         /\ posterUrl movie
            = Some "https://flixpatrol.comhttps://cdn.example.com/dune.jpg"
         /\ link movie
            = Some "https://flixpatrol.comhttps://example.com/title/dune").
Proof.
  split.
  - eexists. split; [vm_compute; reflexivity|].
    repeat split; try discriminate.
  - eexists. split; [vm_compute; reflexivity|].
    repeat split.
Qed.

(** C6 at a premiere text with a two-digit year: the cheerio extractor
    emits the record with the year 25, which is not four digits. *)
Theorem cheerio_year_is_third_component :
  exists movie,
    scrapeFlixPatrol (Sample.lib (Sample.page [Sample.short_year]))
                     Sample.fetched_ok
    = Ok [movie]
    /\ Dom.fullDateText Sample.short_year = "06/04/25"
    /\ year movie = Some "25"
    /\ four_digits "25" = false.
Proof.
  eexists. split; [vm_compute; reflexivity|]. repeat split.
Qed.

(** The year of the cheerio extractor is whatever stands after the second
    slash of the premiere text, up to the next slash. *)
Lemma cheerio_year_unvalidated
      (parse : string -> Dom.node) (row : Dom.node) (movie : Movie) :
  row_callback (Dom.cheerio parse) [] row = [movie] ->
  year movie = or_null (index (split "/" (Dom.fullDateText row)) 2).
Proof.
  intro H.
  destruct (dom_row_callback parse row) as (m & Hc & _ & _ & _ & _ & Hy & _).
  rewrite Hc in H. destruct (truthy _ && includes _ _); [|discriminate].
  now injection H as <-.
Qed.

(** C4 at a row that names the service in lower case and the generic term
    in upper case: [parseMovieData] leaves the flag false, where the
    cheerio extractor sets it on the same text. *)
Theorem parseMovieData_streaming_is_case_sensitive :
  (exists movie,
      Parse.parseMovieData Sample.html_shouting = [movie]
      /\ includes "netflix" Sample.html_shouting = true
      /\ includes "STREAMING" Sample.html_shouting = true
      /\ hasStreaming movie = false)
  /\ (exists movie,
         scrapeFlixPatrol (Sample.lib (Sample.page [Sample.shouting]))
                          Sample.fetched_ok
         = Ok [movie]
         /\ includes "netflix" (Dom.rowText Sample.shouting) = true
         /\ includes "STREAMING" (Dom.rowText Sample.shouting) = true
         /\ hasStreaming movie = true).
Proof.
  split; eexists; (split; [vm_compute; reflexivity|]); repeat split.
Qed.

(* ================================================================== *)
(** * Dates and the scenario of the specification *)

Section DateFacts.

Lemma split_slash_step (c : ascii) (s : string) :
  split "/" (String c s)
  = if Ascii.eqb "/"%char c then EmptyString :: split "/" s
    else push_front c (split "/" s).
Proof.
  unfold split. cbn -[Ascii.eqb]. now rewrite andb_true_r.
Qed.

Lemma split_slash_last (s : string) :
  no_slash s -> split "/" s = [s].
Proof.
  unfold no_slash.
  induction s as [|c s IH]; intro H; [reflexivity|].
  rewrite split_slash_step.
  destruct (Ascii.eqb_spec "/"%char c) as [<-|Hc].
  - exfalso. apply (H "/"%char); [now left | reflexivity].
  - rewrite IH; [reflexivity|].
    intros a Ha. apply H. now right.
Qed.

Lemma split_slash_piece (s rest : string) :
  no_slash s ->
  split "/" (s ++ String "/" rest) = s :: split "/" rest.
Proof.
  unfold no_slash.
  induction s as [|c s IH]; intro H.
  - simpl. now rewrite split_slash_step.
  - simpl. rewrite split_slash_step.
    destruct (Ascii.eqb_spec "/"%char c) as [<-|Hc].
    + exfalso. apply (H "/"%char); [now left | reflexivity].
    + rewrite IH; [reflexivity|].
      intros a Ha. apply H. now right.
Qed.

(** On a premiere text laid out as day/month/year the cheerio extractor
    takes the year. *)
Lemma year_of_formatted_date (dd mm yyyy : string) :
  no_slash dd -> no_slash mm -> no_slash yyyy ->
  yyyy <> EmptyString ->
  or_null (index (split "/" (dd ++ String "/" (mm ++ String "/" yyyy))) 2)
  = Some yyyy.
Proof.
  intros Hd Hm Hy Hne.
  rewrite (split_slash_piece _ Hd), (split_slash_piece _ Hm),
    (split_slash_last Hy).
  simpl. unfold or_null, truthy.
  destruct (String.eqb_spec yyyy EmptyString) as [->|_];
    [now elim Hne | reflexivity].
Qed.

End DateFacts.

(** The scenario of the specification: the row of Inception, a Movie that
    premiered on 12/07/2025 and names no streaming service, is extracted,
    passes the filter and is stored. *)
Example inception_is_stored :
  exists movie resp db',
    scrapeFlixPatrol (Sample.lib (Sample.page [Sample.inception]))
                     Sample.fetched_ok
    = Ok [movie]
    /\ title movie = Some "Inception"
    /\ year movie = Some "2025"
    /\ hasStreaming movie = false
    /\ isMovie movie = true
    /\ filtered2025 [movie] = [movie]
    /\ Router.scheduled
         (scrapeFlixPatrol (Sample.lib (Sample.page [Sample.inception])))
         (Sample.env Sample.accepts_all) Sample.empty_db
       = (Ok resp, db')
    /\ prop "storedCount" (Router.body resp) = Some (JNum 1)
    /\ map Store.col_title (Store.movies_table db') = [Some "Inception"].
Proof.
  eexists _, _, _. split; [vm_compute; reflexivity|].
  do 5 (split; [reflexivity|]).
  split; [vm_compute; reflexivity|].
  split; reflexivity.
Qed.

(** The same row with the name of a service in its text is flagged and
    does not pass the filter. *)
Example streaming_row_is_filtered_out :
  exists movie,
    scrapeFlixPatrol (Sample.lib (Sample.page [Sample.shouting]))
                     Sample.fetched_ok
    = Ok [movie]
    /\ hasStreaming movie = true
    /\ filtered2025 [movie] = [].
Proof.
  eexists. split; [vm_compute; reflexivity|]. split; reflexivity.
Qed.

(** Storing the same record twice leaves one row for its key, stamped
    with the instant of the second statement. *)
Example upsert_twice_one_row :
  forall (t1 t2 : nat),
    Store.upsert t2 Sample.inception_again
                 (Store.upsert t1 Sample.inception_again [])
    = [Store.excluded t2 Sample.inception_again].
Proof. intros t1 t2. reflexivity. Qed.

(* ================================================================== *)
(** * The table under the upsert statement *)

Section KeyFacts.

Import Store.

Lemma same_value_spec (a b : option string) :
  same_value a b = true <-> exists v, a = Some v /\ b = Some v.
Proof.
  destruct a as [x|], b as [y|]; simpl;
    try (split; [discriminate | intros (v & H1 & H2); discriminate]).
  rewrite String.eqb_eq. split.
  - intros ->. now exists y.
  - intros (v & H1 & H2). congruence.
Qed.

Lemma conflicts_key (movie : Movie) (r : StoredMovie) :
  conflicts movie r = true
  <-> row_key r <> None /\ row_key r = movie_key movie.
Proof.
  unfold conflicts, row_key, movie_key.
  rewrite andb_true_iff, !same_value_spec.
  destruct (col_title r) as [t|], (col_year r) as [y|],
    (title movie) as [t'|], (year movie) as [y'|]; split;
    try (intros [(v & H1 & H2) (w & H3 & H4)]; discriminate);
    try (intros [H1 H2]; try discriminate; now elim H1).
  - intros [(v & H1 & H2) (w & H3 & H4)].
    split; [discriminate | congruence].
  - intros [_ H]. injection H as <- <-.
    split; [now exists t | now exists y].
Qed.

Lemma row_key_do_update (t : nat) (movie : Movie) (r : StoredMovie) :
  row_key (do_update t movie r) = row_key r.
Proof. reflexivity. Qed.

Lemma row_key_excluded (t : nat) (movie : Movie) :
  row_key (excluded t movie) = movie_key movie.
Proof. reflexivity. Qed.

Lemma conflicts_do_update (t : nat) (m movie : Movie) (r : StoredMovie) :
  conflicts m (do_update t movie r) = conflicts m r.
Proof. reflexivity. Qed.

Lemma conflicts_excluded (t : nat) (movie : Movie) :
  keyed movie -> conflicts movie (excluded t movie) = true.
Proof.
  intros [Ht Hy]. unfold conflicts, excluded. simpl.
  destruct (title movie) as [a|]; [|now elim Ht].
  destruct (year movie) as [b|]; [|now elim Hy].
  simpl. now rewrite !String.eqb_refl.
Qed.

Lemma no_conflict_map (t : nat) (movie : Movie) (rows : list StoredMovie) :
  existsb (conflicts movie) rows = false ->
  map (fun r => if conflicts movie r then do_update t movie r else r) rows
  = rows.
Proof.
  induction rows as [|r rows IH]; simpl; [reflexivity|].
  intro H. apply orb_false_iff in H. destruct H as [Hr Hrows].
  now rewrite Hr, IH.
Qed.

Lemma unique_keys_map (f : StoredMovie -> StoredMovie)
      (rows : list StoredMovie) :
  (forall r, row_key (f r) = row_key r) ->
  unique_keys rows -> unique_keys (map f rows).
Proof.
  intro Hf. induction rows as [|r rows IH]; simpl; [trivial|].
  intros [Hr Hrows]. split; [|now apply IH].
  intros x Hx. apply in_map_iff in Hx. destruct Hx as (x0 & <- & Hx0).
  rewrite !Hf. now apply Hr.
Qed.

Lemma unique_keys_snoc (rows : list StoredMovie) (e : StoredMovie) :
  unique_keys rows ->
  (forall r, In r rows -> row_key r <> None -> row_key e <> row_key r) ->
  unique_keys (rows ++ [e]).
Proof.
  induction rows as [|r rows IH]; simpl.
  - intros _ _. split; [intros x [] | trivial].
  - intros [Hr Hrows] He. split.
    + intros x Hx. apply in_app_iff in Hx. destruct Hx as [Hx | [<- | []]].
      * now apply Hr.
      * apply He. now left.
    + apply IH; [exact Hrows|]. intros x Hx. apply He. now right.
Qed.

Lemma upsert_unique (t : nat) (movie : Movie) (rows : list StoredMovie) :
  unique_keys rows -> unique_keys (upsert t movie rows).
Proof.
  intro Hu. unfold upsert.
  destruct (existsb (conflicts movie) rows) eqn:Hex.
  - apply unique_keys_map; [|exact Hu].
    intro r. now destruct (conflicts movie r).
  - apply unique_keys_snoc; [exact Hu|].
    intros r Hr Hk Heq. rewrite row_key_excluded in Heq.
    assert (Hc : conflicts movie r = true)
      by (apply conflicts_key; split; [exact Hk | now symmetry]).
    assert (Hex' : existsb (conflicts movie) rows = true)
      by (apply existsb_exists; now exists r).
    congruence.
Qed.

Lemma upsert_length (t : nat) (movie : Movie) (rows : list StoredMovie) :
  List.length rows <= List.length (upsert t movie rows)
  /\ List.length (upsert t movie rows) <= S (List.length rows).
Proof.
  unfold upsert. destruct (existsb (conflicts movie) rows).
  - rewrite length_map. lia.
  - rewrite length_app. simpl. lia.
Qed.

(** After the statement the table holds the incoming record. *)
Lemma upsert_holds (t : nat) (movie : Movie) (rows : list StoredMovie) :
  exists r,
    In r (upsert t movie rows)
    /\ col_title r = title movie /\ col_year r = year movie
    /\ col_poster_url r = posterUrl movie /\ col_link r = link movie
    /\ col_country r = country movie /\ col_genre r = genre movie
    /\ col_has_streaming r = hasStreaming movie
    /\ col_updated_at r = t.
Proof.
  unfold upsert. destruct (existsb (conflicts movie) rows) eqn:Hex.
  - apply existsb_exists in Hex. destruct Hex as (r & Hr & Hc).
    exists (do_update t movie r). split.
    + apply in_map_iff. exists r. now rewrite Hc.
    + unfold conflicts in Hc. apply andb_true_iff in Hc.
      destruct Hc as [Ht Hy].
      apply same_value_spec in Ht. destruct Ht as (a & Ha & Ha').
      apply same_value_spec in Hy. destruct Hy as (b & Hb & Hb').
      simpl. repeat split; congruence.
  - exists (excluded t movie). split; [|repeat split].
    apply in_app_iff. right. now left.
Qed.

End KeyFacts.

Section BatchFacts.

Import Store.

Variable rejects : Movie -> Db -> option Error.

Lemma store_loop_neon (movies : list Movie) :
  forall (count : nat) (db : Db),
    store_loop (neon_sql rejects) movies count db
    = (Ok (count + List.length (accepted rejects movies db)),
       mkDb (upsert_all (now db) (accepted rejects movies db)
                        (movies_table db))
            (now db)).
Proof.
  induction movies as [|movie rest IH]; intros count db.
  - destruct db. simpl. unfold ret. now rewrite Nat.add_0_r.
  - simpl. unfold bind at 1. unfold try_catch, bind, ret, neon_sql.
    destruct (rejects movie db) as [e|]; rewrite IH; simpl.
    + reflexivity.
    + f_equal. f_equal. lia.
Qed.

Lemma accepted_incl (movies : list Movie) :
  forall db movie, In movie (accepted rejects movies db) -> In movie movies.
Proof.
  induction movies as [|m rest IH]; intros db movie; simpl; [tauto|].
  destruct (rejects m db).
  - intro H. right. now apply IH with (db := db).
  - intros [<- | H]; [now left | right; eapply IH; eassumption].
Qed.

Lemma accepted_length (movies : list Movie) :
  forall db,
    List.length (accepted rejects movies db) <= List.length movies.
Proof.
  induction movies as [|m rest IH]; intro db; simpl; [lia|].
  destruct (rejects m db); simpl.
  - specialize (IH db). lia.
  - match goal with |- S (List.length (accepted _ _ ?d)) <= _ =>
      specialize (IH d) end. lia.
Qed.

End BatchFacts.

Section UpsertAllFacts.

Import Store.

Variable t : nat.

Lemma upsert_all_unique (movies : list Movie) :
  forall rows, unique_keys rows -> unique_keys (upsert_all t movies rows).
Proof.
  induction movies as [|m rest IH]; intros rows H; simpl; [exact H|].
  apply IH. now apply upsert_unique.
Qed.

Lemma upsert_all_length (movies : list Movie) :
  forall rows,
    List.length rows <= List.length (upsert_all t movies rows)
    /\ List.length (upsert_all t movies rows)
       <= List.length rows + List.length movies.
Proof.
  induction movies as [|m rest IH]; intro rows; simpl; [lia|].
  destruct (IH (upsert t m rows)) as [H1 H2].
  destruct (upsert_length t m rows) as [H3 H4]. lia.
Qed.

(** A record that passed the filter of the handlers writes a row the
    read routes select. *)
Lemma kept_conflict_year (m : Movie) (r : StoredMovie) :
  keep "2025" m = true -> conflicts m r = true ->
  col_year r = Some "2025".
Proof.
  intros Hk Hc. apply keep_spec in Hk. destruct Hk as [Hy _].
  unfold conflicts in Hc. apply andb_true_iff in Hc.
  destruct Hc as [_ Hc]. apply same_value_spec in Hc.
  destruct Hc as (y & H1 & H2). congruence.
Qed.

Lemma upsert_written (rows0 : list StoredMovie) (t0 t1 : nat) (m : Movie)
      (rows : list StoredMovie) :
  keep "2025" m = true ->
  t0 <= t /\ t <= t1 ->
  Forall (fun r => In r rows0 \/ written_between t0 t1 r) rows ->
  Forall (fun r => In r rows0 \/ written_between t0 t1 r)
         (upsert t m rows).
Proof.
  intros Hk Ht Hrows. pose proof Hk as Hk'. apply keep_spec in Hk'.
  destruct Hk' as [Hy Hs].
  unfold upsert. destruct (existsb (conflicts m) rows).
  - apply Forall_forall. intros x Hx. apply in_map_iff in Hx.
    destruct Hx as (r & <- & Hr).
    destruct (conflicts m r) eqn:Hc.
    + right. split; [|exact Ht].
      unfold Query.current. simpl.
      now rewrite (kept_conflict_year _ _ Hk Hc), Hs.
    + rewrite Forall_forall in Hrows. now apply Hrows.
  - apply Forall_app. split; [exact Hrows|].
    constructor; [|constructor]. right. split; [|exact Ht].
    unfold Query.current. simpl. now rewrite Hy, Hs.
Qed.

(** A row of a 2025 title without streaming stays one under the
    statements of records that passed the filter. *)
Lemma upsert_keeps_current (a : option string) (m : Movie)
      (rows : list StoredMovie) :
  keep "2025" m = true ->
  (exists r, In r rows /\ col_title r = a /\ Query.current r = true) ->
  exists r, In r (upsert t m rows)
            /\ col_title r = a /\ Query.current r = true.
Proof.
  intros Hk (r & Hr & Ha & Hcur).
  pose proof Hk as Hk'. apply keep_spec in Hk'. destruct Hk' as [Hy Hs].
  unfold upsert. destruct (existsb (conflicts m) rows).
  - destruct (conflicts m r) eqn:Hc.
    + exists (do_update t m r). split; [|split].
      * apply in_map_iff. exists r. now rewrite Hc.
      * exact Ha.
      * unfold Query.current. simpl.
        now rewrite (kept_conflict_year _ _ Hk Hc), Hs.
    + exists r. split; [|now split].
      apply in_map_iff. exists r. now rewrite Hc.
  - exists r. split; [|now split]. apply in_app_iff. now left.
Qed.

Lemma upsert_all_keeps_current (a : option string) (movies : list Movie) :
  forall rows,
    Forall (fun m => keep "2025" m = true) movies ->
    (exists r, In r rows /\ col_title r = a /\ Query.current r = true) ->
    exists r, In r (upsert_all t movies rows)
              /\ col_title r = a /\ Query.current r = true.
Proof.
  induction movies as [|m rest IH]; intros rows Hk H; simpl; [exact H|].
  inversion Hk; subst. apply IH; [assumption|].
  now apply upsert_keeps_current.
Qed.

Lemma upsert_all_holds (movies : list Movie) :
  forall rows movie,
    Forall (fun m => keep "2025" m = true) movies ->
    In movie movies ->
    exists r, In r (upsert_all t movies rows)
              /\ col_title r = title movie /\ Query.current r = true.
Proof.
  induction movies as [|m rest IH]; intros rows movie Hk Hin;
    [destruct Hin|].
  inversion Hk as [|? ? Hm Hrest]; subst. simpl.
  destruct Hin as [<- | Hin]; [|now apply IH].
  apply upsert_all_keeps_current; [exact Hrest|].
  destruct (upsert_holds t m rows)
    as (r & Hr & Ht & Hy & _ & _ & _ & _ & Hs & _).
  exists r. split; [exact Hr|]. split; [exact Ht|].
  apply keep_spec in Hm. destruct Hm as [Hm1 Hm2].
  unfold Query.current. rewrite Hy, Hm1, Hs, Hm2. reflexivity.
Qed.

End UpsertAllFacts.

Section UniqueFacts.

Import Store.

(** On a table with unique keys at most one row has the key of a
    record. *)
Lemma conflict_at_most_once (movie : Movie) (rows : list StoredMovie) :
  unique_keys rows ->
  List.length (filter (conflicts movie) rows) <= 1.
Proof.
  induction rows as [|r rows IH]; simpl; [lia|].
  intros [Hr Hrows]. specialize (IH Hrows).
  destruct (conflicts movie r) eqn:Hc; [|exact IH]. simpl.
  apply conflicts_key in Hc. destruct Hc as [Hk Heq].
  assert (Hnone : filter (conflicts movie) rows = []).
  { destruct (filter (conflicts movie) rows) as [|x rest] eqn:Hf;
      [reflexivity|].
    assert (Hx : In x (filter (conflicts movie) rows))
      by (rewrite Hf; now left).
    apply filter_In in Hx. destruct Hx as [Hin Hcx].
    apply conflicts_key in Hcx. destruct Hcx as [_ Heqx].
    exfalso. apply (Hr x Hin Hk). congruence. }
  rewrite Hnone. simpl. lia.
Qed.

(** A row with the key of the record, after the statement, is the row
    the statement wrote. *)
Lemma upsert_conflict_row (t : nat) (movie : Movie)
      (rows : list StoredMovie) (r : StoredMovie) :
  In r (upsert t movie rows) ->
  conflicts movie r = true ->
  col_updated_at r = t
  /\ col_poster_url r = posterUrl movie /\ col_link r = link movie
  /\ col_country r = country movie /\ col_genre r = genre movie
  /\ col_has_streaming r = hasStreaming movie.
Proof.
  unfold upsert. destruct (existsb (conflicts movie) rows) eqn:Hex.
  - intros Hin Hc. apply in_map_iff in Hin.
    destruct Hin as (r0 & Hr0 & _).
    destruct (conflicts movie r0) eqn:Hc0.
    + subst r. repeat split.
    + subst r. congruence.
  - intros Hin Hc. apply in_app_iff in Hin.
    destruct Hin as [Hin | [<- | []]]; [|repeat split].
    assert (existsb (conflicts movie) rows = true)
      by (apply existsb_exists; now exists r).
    congruence.
Qed.

Lemma upsert_has_conflict (t : nat) (movie : Movie)
      (rows : list StoredMovie) :
  keyed movie ->
  exists r, In r (upsert t movie rows) /\ conflicts movie r = true.
Proof.
  intros [Ht Hy].
  destruct (upsert_holds t movie rows) as (r & Hr & Hrt & Hry & _).
  exists r. split; [exact Hr|].
  unfold conflicts. rewrite Hrt, Hry.
  destruct (title movie) as [a|]; [|now elim Ht].
  destruct (year movie) as [b|]; [|now elim Hy].
  simpl. now rewrite !String.eqb_refl.
Qed.

End UniqueFacts.

Section TickingFacts.

Import Store.

Variable elapsed : Movie -> Db -> nat.
Variable rejects : Movie -> Db -> option Error.

(** With a clock that stands still the ticking handle is the handle of
    the statement-level results. *)
Lemma standing_clock (movie : Movie) (db : Db) :
  Ticking.neon_sql (fun _ _ => 0) rejects movie db
  = neon_sql rejects movie db.
Proof.
  unfold Ticking.neon_sql, neon_sql. rewrite Nat.add_0_r.
  destruct db as [rows t]. simpl. now destruct (rejects movie _).
Qed.

Lemma after_now (movie : Movie) (db : Db) :
  now (Ticking.after elapsed rejects movie db)
  = now db + elapsed movie db.
Proof.
  unfold Ticking.after, Ticking.neon_sql.
  now destruct (rejects movie db).
Qed.

Lemma clock_after_ge (movies : list Movie) :
  forall db, now db <= Ticking.clock_after elapsed rejects movies db.
Proof.
  induction movies as [|m rest IH]; intro db; simpl; [lia|].
  specialize (IH (Ticking.after elapsed rejects m db)).
  rewrite after_now in IH. lia.
Qed.

Lemma store_loop_ticking (movies : list Movie) :
  forall (count : nat) (db : Db),
    store_loop (Ticking.neon_sql elapsed rejects) movies count db
    = (Ok (count
           + List.length (Ticking.accepted_at elapsed rejects movies db)),
       mkDb (Ticking.upsert_each
               (Ticking.accepted_at elapsed rejects movies db)
               (movies_table db))
            (Ticking.clock_after elapsed rejects movies db)).
Proof.
  induction movies as [|movie rest IH]; intros count db.
  - destruct db. simpl. unfold ret. now rewrite Nat.add_0_r.
  - cbn [store_loop Ticking.accepted_at Ticking.clock_after].
    unfold bind at 1. unfold try_catch, bind, ret.
    destruct (Ticking.neon_sql elapsed rejects movie db) as [r s1] eqn:Hstep.
    assert (Hs1 : s1 = Ticking.after elapsed rejects movie db)
      by (unfold Ticking.after; now rewrite Hstep).
    unfold Ticking.neon_sql in Hstep.
    destruct (rejects movie db) as [e|]; injection Hstep as <- Htable;
      rewrite IH, Hs1; cbn zeta; rewrite <- Hs1, <- Htable; simpl.
    + reflexivity.
    + f_equal. f_equal. lia.
Qed.

Lemma accepted_at_within (movies : list Movie) :
  forall db t m,
    In (t, m) (Ticking.accepted_at elapsed rejects movies db) ->
    In m movies
    /\ now db <= t
    /\ t <= Ticking.clock_after elapsed rejects movies db.
Proof.
  induction movies as [|movie rest IH]; intros db t m; simpl; [tauto|].
  assert (Hrest :
            In (t, m)
               (Ticking.accepted_at elapsed rejects rest
                                    (Ticking.after elapsed rejects movie db)) ->
            In m (movie :: rest)
            /\ now db <= t
            /\ t <= Ticking.clock_after
                      elapsed rejects rest
                      (Ticking.after elapsed rejects movie db)).
  { intro H. apply IH in H. destruct H as (H1 & H2 & H3).
    rewrite after_now in H2. split; [now right|]. split; [lia | exact H3]. }
  destruct (rejects movie db); [exact Hrest|].
  intros [H | H]; [|now apply Hrest].
  injection H as <- <-. split; [now left|]. split; [lia|].
  pose proof (clock_after_ge rest (Ticking.after elapsed rejects movie db))
    as Hge.
  rewrite after_now in Hge. lia.
Qed.

Lemma upsert_each_written (rows0 : list StoredMovie) (t0 t1 : nat)
      (stamped : list (nat * Movie)) :
  forall rows,
    Forall (fun tm => keep "2025" (snd tm) = true
                      /\ t0 <= fst tm /\ fst tm <= t1) stamped ->
    Forall (fun r => In r rows0 \/ written_between t0 t1 r) rows ->
    Forall (fun r => In r rows0 \/ written_between t0 t1 r)
           (Ticking.upsert_each stamped rows).
Proof.
  induction stamped as [|[t m] rest IH]; intros rows Hk Hrows; simpl;
    [exact Hrows|].
  inversion Hk as [|? ? [Hm Ht] Hrest]; subst. apply IH; [exact Hrest|].
  now apply upsert_written.
Qed.

End TickingFacts.

(* ================================================================== *)
(** * What the upsert statement and the batch guarantee *)

(** X1: on a table with unique keys, storing a record that has a title
    and a year at one instant and again at a later one leaves the table
    that storing it once at the later instant leaves; the second statement
    adds no row, and the table then holds exactly one row with the
    record's key, which carries the record's fields and the second instant
    as updated_at. *)
Theorem upsert_converges :
  forall (t1 t2 : nat) (movie : Movie) (rows : list Store.StoredMovie),
    keyed movie ->
    unique_keys rows ->
    Store.upsert t2 movie (Store.upsert t1 movie rows)
    = Store.upsert t2 movie rows
    /\ List.length (Store.upsert t2 movie (Store.upsert t1 movie rows))
       = List.length (Store.upsert t1 movie rows)
    /\ exists r,
        filter (Store.conflicts movie)
               (Store.upsert t2 movie (Store.upsert t1 movie rows))
        = [r]
        /\ Store.col_updated_at r = t2
        /\ row_key r = movie_key movie
        /\ Store.col_poster_url r = posterUrl movie
        /\ Store.col_link r = link movie
        /\ Store.col_country r = country movie
        /\ Store.col_genre r = genre movie
        /\ Store.col_has_streaming r = hasStreaming movie.
Proof.
  intros t1 t2 movie rows Hk Hu.
  assert (Heq : Store.upsert t2 movie (Store.upsert t1 movie rows)
                = Store.upsert t2 movie rows).
  { unfold Store.upsert at 2 3.
    destruct (existsb (Store.conflicts movie) rows) eqn:Hex.
    - rewrite upsert_on_conflict.
      + rewrite map_map. apply map_ext. intro r.
        destruct (Store.conflicts movie r) eqn:Hc; [|now rewrite Hc].
        now rewrite conflicts_do_update, Hc.
      + apply existsb_exists in Hex. destruct Hex as (r & Hr & Hc).
        apply existsb_exists. exists (Store.do_update t1 movie r). split.
        * apply in_map_iff. exists r. now rewrite Hc.
        * now rewrite conflicts_do_update.
    - rewrite upsert_on_conflict.
      + rewrite map_app, (no_conflict_map _ _ _ Hex). simpl.
        now rewrite (conflicts_excluded t1 Hk).
      + rewrite existsb_app. simpl.
        now rewrite (conflicts_excluded t1 Hk), orb_true_r. }
  split; [exact Heq|]. split.
  - destruct (@upsert_has_conflict t1 movie rows Hk) as (r & Hr & Hc).
    rewrite upsert_on_conflict; [apply length_map|].
    apply existsb_exists. now exists r.
  - assert (Hu2 : unique_keys
                    (Store.upsert t2 movie (Store.upsert t1 movie rows)))
      by (apply upsert_unique; apply upsert_unique; exact Hu).
    assert (Hle : List.length
                    (filter (Store.conflicts movie)
                            (Store.upsert t2 movie
                                          (Store.upsert t1 movie rows)))
                  <= 1)
      by (apply conflict_at_most_once; exact Hu2).
    destruct (@upsert_has_conflict t2 movie (Store.upsert t1 movie rows) Hk)
      as (r & Hr & Hc).
    assert (Hin : In r (filter (Store.conflicts movie)
                               (Store.upsert t2 movie
                                             (Store.upsert t1 movie rows))))
      by (apply filter_In; now split).
    destruct (filter (Store.conflicts movie)
                     (Store.upsert t2 movie (Store.upsert t1 movie rows)))
      as [|x [|y rest]]; [destruct Hin| |simpl in Hle; lia].
    destruct Hin as [-> | []].
    exists r. split; [reflexivity|].
    destruct (@upsert_conflict_row _ _ _ _ Hr Hc) as (H1 & H2).
    split; [exact H1|]. split; [|exact H2].
    now apply conflicts_key in Hc.
Qed.

Lemma upsert_converges_witness :
  Store.upsert 1200 Sample.inception_again
               (Store.upsert 1100 Sample.inception_again
                             (Store.movies_table Sample.db_two))
  = Store.upsert 1200 Sample.inception_again
                 (Store.movies_table Sample.db_two)
  /\ List.length
       (Store.upsert 1200 Sample.inception_again
                     (Store.upsert 1100 Sample.inception_again
                                   (Store.movies_table Sample.db_two)))
     = List.length (Store.upsert 1100 Sample.inception_again
                                 (Store.movies_table Sample.db_two))
  /\ exists r,
      filter (Store.conflicts Sample.inception_again)
             (Store.upsert 1200 Sample.inception_again
                           (Store.upsert 1100 Sample.inception_again
                                         (Store.movies_table Sample.db_two)))
      = [r]
      /\ Store.col_updated_at r = 1200
      /\ row_key r = movie_key Sample.inception_again
      /\ Store.col_poster_url r = posterUrl Sample.inception_again
      /\ Store.col_link r = link Sample.inception_again
      /\ Store.col_country r = country Sample.inception_again
      /\ Store.col_genre r = genre Sample.inception_again
      /\ Store.col_has_streaming r = hasStreaming Sample.inception_again.
Proof.
  apply (@upsert_converges 1100 1200 Sample.inception_again
           (Store.movies_table Sample.db_two)).
  - split; discriminate.
  - simpl. split; [intros x [<- | []] _; discriminate|].
    split; [intros x [] | exact I].
Defined.

(** X2: once the storage accepts the statement for a record, the table
    holds a row with the record's title, year and every other field, and
    the instant of the statement, whether the key was there before or
    not. *)
Theorem stored_record_is_found :
  forall (rejects : Movie -> Store.Db -> option Error) (movie : Movie)
         (db : Store.Db),
    rejects movie db = None ->
    exists db' r,
      Store.neon_sql rejects movie db = (Ok tt, db')
      /\ In r (Store.movies_table db')
      /\ Store.col_title r = title movie
      /\ Store.col_year r = year movie
      /\ Store.col_poster_url r = posterUrl movie
      /\ Store.col_link r = link movie
      /\ Store.col_country r = country movie
      /\ Store.col_genre r = genre movie
      /\ Store.col_has_streaming r = hasStreaming movie
      /\ Store.col_updated_at r = Store.now db.
Proof.
  intros rejects movie db Hacc. unfold Store.neon_sql. rewrite Hacc.
  destruct (upsert_holds (Store.now db) movie (Store.movies_table db))
    as (r & Hr & H).
  eexists _, r. split; [reflexivity|]. split; [exact Hr | exact H].
Qed.

Lemma stored_record_is_found_witness :
  exists db' r,
    Store.neon_sql Sample.accepts_all Sample.inception_again Sample.empty_db
    = (Ok tt, db')
    /\ In r (Store.movies_table db')
    /\ Store.col_title r = Some "Inception"
    /\ Store.col_year r = Some "2025"
    /\ Store.col_poster_url r = None
    /\ Store.col_link r = Some "https://flixpatrol.com/title/inception"
    /\ Store.col_country r = Some "United States"
    /\ Store.col_genre r = Some "Sci-Fi"
    /\ Store.col_has_streaming r = false
    /\ Store.col_updated_at r = 1000.
Proof.
  exact (@stored_record_is_found Sample.accepts_all Sample.inception_again
           Sample.empty_db eq_refl).
Defined.

(** X3: a batch on the handle, the clock running, leaves the table
    that upserting the accepted records gives, in order, each at the
    instant its own NOW() read; a refused record leaves no trace in the
    table, the count is the number of accepted records, every one of them
    is a record of the batch, and its instant lies between the clock
    before the batch and the clock after it. *)
Theorem batch_is_accepted_upserts :
  forall (elapsed : Movie -> Store.Db -> nat)
         (rejects : Movie -> Store.Db -> option Error)
         (movies : list Movie) (db : Store.Db),
    Store.storeMoviesInDatabase (Ticking.neon_sql elapsed rejects) movies db
    = (Ok (List.length (Ticking.accepted_at elapsed rejects movies db)),
       Store.mkDb
         (Ticking.upsert_each (Ticking.accepted_at elapsed rejects movies db)
                              (Store.movies_table db))
         (Ticking.clock_after elapsed rejects movies db))
    /\ (forall t movie,
           In (t, movie) (Ticking.accepted_at elapsed rejects movies db) ->
           In movie movies
           /\ Store.now db <= t
           /\ t <= Ticking.clock_after elapsed rejects movies db).
Proof.
  intros elapsed rejects movies db. split.
  - unfold Store.storeMoviesInDatabase. now rewrite store_loop_ticking.
  - intros t movie. apply accepted_at_within.
Qed.

(** X4: a batch keeps the keys of the table unique, removes no row, and
    adds at most as many rows as it reports stored. *)
Theorem batch_keeps_keys_unique :
  forall (rejects : Movie -> Store.Db -> option Error)
         (movies : list Movie) (db : Store.Db),
    unique_keys (Store.movies_table db) ->
    exists stored db',
      Store.storeMoviesInDatabase (Store.neon_sql rejects) movies db
      = (Ok stored, db')
      /\ unique_keys (Store.movies_table db')
      /\ List.length (Store.movies_table db)
         <= List.length (Store.movies_table db')
      /\ List.length (Store.movies_table db')
         <= List.length (Store.movies_table db) + stored
      /\ stored <= List.length movies.
Proof.
  intros rejects movies db Hu.
  unfold Store.storeMoviesInDatabase. rewrite store_loop_neon.
  eexists _, _. split; [reflexivity|]. simpl.
  split; [now apply upsert_all_unique|].
  destruct (upsert_all_length (Store.now db) (accepted rejects movies db)
                              (Store.movies_table db)) as [H1 H2].
  split; [exact H1|]. split; [exact H2|]. apply accepted_length.
Qed.

Lemma batch_keeps_keys_unique_witness :
  exists stored db',
    Store.storeMoviesInDatabase
      (Store.neon_sql Sample.rejects_beta)
      [Sample.inception_again; Sample.inception_again] Sample.db_two
    = (Ok stored, db')
    /\ unique_keys (Store.movies_table db')
    /\ 2 <= List.length (Store.movies_table db')
    /\ List.length (Store.movies_table db') <= 2 + stored
    /\ stored <= 2.
Proof.
  apply (@batch_keeps_keys_unique Sample.rejects_beta
           [Sample.inception_again; Sample.inception_again] Sample.db_two).
  simpl. split; [intros x [<- | []] _; discriminate|].
  split; [intros x [] | exact I].
Defined.

(* ================================================================== *)
(** * Runs of the two scrape routes *)

Section RunFacts.

Import Store Router.

Variable S : Type.
Variable scrape : result FetchResponse -> result (list Movie).

(** A run of [/scrape-now] ends in one of two ways, and never throws. *)
Lemma scrape_now_outcome (env : Env S) (s : S) :
  (exists scrapedData sql,
      scrape (fetched env) = Ok scrapedData
      /\ getDb env = Ok sql
      /\ scrape_now scrape env s
         = (Ok (mkResponse
                  (JObj [("success", JBool true);
                         ("timestamp", JStr (isoNow env));
                         ("totalScraped", JNum (List.length scrapedData));
                         ("filtered2025Count",
                          JNum (List.length (filtered2025 scrapedData)));
                         ("storedCount",
                          JNum (successes
                                  (fst (attempts sql
                                          (filtered2025 scrapedData) s))));
                         ("movies",
                          JArr (map movie_json
                                    (filtered2025 scrapedData)))])
                  200 corsHeaders),
            snd (attempts sql (filtered2025 scrapedData) s)))
  \/ (exists e,
         (scrape (fetched env) = Throw e
          \/ exists d, scrape (fetched env) = Ok d /\ getDb env = Throw e)
         /\ scrape_now scrape env s = (Ok (Routes.failure_cors e), s)).
Proof.
  unfold scrape_now, try_catch, bind, lift, Routes.failure_cors.
  destruct (scrape (fetched env)) as [scrapedData|e];
    [|right; exists e; split; [now left | reflexivity]].
  destruct (getDb env) as [sql|e];
    [|right; exists e; split; [right; now exists scrapedData | reflexivity]].
  left. exists scrapedData, sql. repeat split.
  unfold storeMoviesInDatabase. rewrite store_loop_attempts. reflexivity.
Qed.

End RunFacts.

Lemma attempts_neon (rejects : Movie -> Store.Db -> option Error)
      (movies : list Movie) (db : Store.Db) :
  successes (fst (attempts (Store.neon_sql rejects) movies db))
  = List.length (accepted rejects movies db)
  /\ snd (attempts (Store.neon_sql rejects) movies db)
     = Store.mkDb (upsert_all (Store.now db) (accepted rejects movies db)
                              (Store.movies_table db))
                  (Store.now db).
Proof.
  pose proof (store_loop_attempts (Store.neon_sql rejects) movies 0 db) as H1.
  rewrite store_loop_neon in H1. simpl in H1.
  injection H1 as Hn Hs. now split.
Qed.

Lemma filtered_all_kept (scrapedData : list Movie) :
  Forall (fun m => keep "2025" m = true) (filtered2025 scrapedData).
Proof.
  apply Forall_forall. intros m Hm.
  unfold filtered2025, filter_year in Hm. now apply filter_In in Hm.
Qed.

Lemma accepted_all_kept (rejects : Movie -> Store.Db -> option Error)
      (scrapedData : list Movie) (db : Store.Db) :
  Forall (fun m => keep "2025" m = true)
         (accepted rejects (filtered2025 scrapedData) db).
Proof.
  apply Forall_forall. intros m Hm. apply accepted_incl in Hm.
  pose proof (filtered_all_kept scrapedData) as H.
  rewrite Forall_forall in H. now apply H.
Qed.

Lemma attempts_ticking (elapsed : Movie -> Store.Db -> nat)
      (rejects : Movie -> Store.Db -> option Error)
      (movies : list Movie) (db : Store.Db) :
  snd (attempts (Ticking.neon_sql elapsed rejects) movies db)
  = Store.mkDb
      (Ticking.upsert_each (Ticking.accepted_at elapsed rejects movies db)
                           (Store.movies_table db))
      (Ticking.clock_after elapsed rejects movies db).
Proof.
  pose proof (store_loop_attempts (Ticking.neon_sql elapsed rejects)
                                  movies 0 db) as H1.
  rewrite store_loop_ticking in H1. simpl in H1.
  now injection H1 as _ Hs.
Qed.

(** X5: whatever a run of [/scheduled] or [/scrape-now] finds on the
    page, and however the clock moves between its statements, every row
    of the table afterwards is a row that was there before, or a row of
    the year 2025 without streaming whose updated_at lies between the
    clock at the start of the run and the clock at its end. *)
Theorem run_writes_only_current_rows :
  forall (scrape : result FetchResponse -> result (list Movie))
         (env : Router.Env Store.Db)
         (elapsed : Movie -> Store.Db -> nat)
         (rejects : Movie -> Store.Db -> option Error) (db : Store.Db),
    Router.getDb env = Ok (Ticking.neon_sql elapsed rejects) ->
    forall db',
      (db' = snd (Router.scheduled scrape env db)
       \/ db' = snd (Router.scrape_now scrape env db)) ->
      Store.now db <= Store.now db'
      /\ Forall (fun r => In r (Store.movies_table db)
                          \/ written_between (Store.now db)
                                             (Store.now db') r)
                (Store.movies_table db').
Proof.
  intros scrape env elapsed rejects db Hdb db' Hrun.
  assert (Hcase :
            db' = db
            \/ exists d, db' = snd (attempts (Ticking.neon_sql elapsed rejects)
                                             (filtered2025 d) db)).
  { destruct Hrun as [-> | ->].
    - destruct (scheduled_cases scrape env db)
        as [(d & q & _ & Hq & ->) | (e & _ & ->)]; [|now left].
      right. exists d. rewrite Hdb in Hq. now injection Hq as <-.
    - destruct (scrape_now_outcome scrape env db)
        as [(d & q & _ & Hq & ->) | (e & _ & ->)]; [|now left].
      right. exists d. rewrite Hdb in Hq. now injection Hq as <-. }
  destruct Hcase as [-> | (d & ->)].
  - split; [lia|]. apply Forall_forall. intros r Hr. now left.
  - rewrite attempts_ticking. simpl.
    split; [apply clock_after_ge|].
    apply upsert_each_written.
    + apply Forall_forall. intros [t m] Hin.
      apply accepted_at_within in Hin. destruct Hin as (Hm & Ht0 & Ht1).
      simpl. split; [|now split].
      pose proof (filtered_all_kept d) as Hk.
      rewrite Forall_forall in Hk. now apply Hk.
    + apply Forall_forall. intros r Hr. now left.
Qed.

Lemma run_writes_only_current_rows_witness :
  Store.now Sample.db_two
  <= Store.now
       (snd (Router.scheduled
               (scrapeFlixPatrol
                  (Sample.lib (Sample.page [Sample.inception;
                                            Sample.alpha])))
               (Router.mkEnv Sample.fetched_ok
                             (Ok (Ticking.neon_sql (fun _ _ => 7)
                                                   Sample.accepts_all))
                             "2025-07-12T00:00:00.000Z")
               Sample.db_two))
  /\ Forall (fun r =>
               In r (Store.movies_table Sample.db_two)
               \/ written_between
                    (Store.now Sample.db_two)
                    (Store.now
                       (snd (Router.scheduled
                               (scrapeFlixPatrol
                                  (Sample.lib
                                     (Sample.page [Sample.inception;
                                                   Sample.alpha])))
                               (Router.mkEnv
                                  Sample.fetched_ok
                                  (Ok (Ticking.neon_sql (fun _ _ => 7)
                                                        Sample.accepts_all))
                                  "2025-07-12T00:00:00.000Z")
                               Sample.db_two)))
                    r)
            (Store.movies_table
               (snd (Router.scheduled
                       (scrapeFlixPatrol
                          (Sample.lib (Sample.page [Sample.inception;
                                                    Sample.alpha])))
                       (Router.mkEnv Sample.fetched_ok
                                     (Ok (Ticking.neon_sql
                                            (fun _ _ => 7)
                                            Sample.accepts_all))
                                     "2025-07-12T00:00:00.000Z")
                       Sample.db_two))).
Proof.
  apply (@run_writes_only_current_rows
           (scrapeFlixPatrol
              (Sample.lib (Sample.page [Sample.inception; Sample.alpha])))
           (Router.mkEnv Sample.fetched_ok
                         (Ok (Ticking.neon_sql (fun _ _ => 7)
                                               Sample.accepts_all))
                         "2025-07-12T00:00:00.000Z")
           (fun _ _ => 7) Sample.accepts_all Sample.db_two eq_refl).
  now left.
Defined.

(** X6: a run that does not report success has written nothing: the
    store is the one it started from, and the answer is a 500 that
    carries the error's message. *)
Theorem failed_run_writes_nothing :
  forall (S : Type) (scrape : result FetchResponse -> result (list Movie))
         (env : Router.Env S) (s s' : S) (resp : Router.Response),
    (Router.scheduled scrape env s = (Ok resp, s')
     \/ Router.scrape_now scrape env s = (Ok resp, s')) ->
    Router.succeeded resp = false ->
    s' = s
    /\ Router.http_status resp = 500
    /\ exists e,
        prop "error" (Router.body resp) = Some (JStr (message e))
        /\ (scrape (Router.fetched env) = Throw e
            \/ Router.getDb env = Throw e).
Proof.
  intros S scrape env s s' resp Hrun Hfail.
  destruct Hrun as [Hrun | Hrun].
  - destruct (scheduled_cases scrape env s)
      as [(d & q & _ & _ & Hs) | (e & He & Hs)];
      rewrite Hs in Hrun; injection Hrun as <- <-; [discriminate Hfail|].
    split; [reflexivity|]. split; [reflexivity|]. exists e.
    split; [reflexivity|].
    destruct He as [He | (d & _ & He)]; [now left | now right].
  - destruct (scrape_now_outcome scrape env s)
      as [(d & q & _ & _ & Hs) | (e & He & Hs)];
      rewrite Hs in Hrun; injection Hrun as <- <-; [discriminate Hfail|].
    split; [reflexivity|]. split; [reflexivity|]. exists e.
    split; [reflexivity|].
    destruct He as [He | (d & _ & He)]; [now left | now right].
Qed.

(** X7: when the page answers with a status that is not ok, both variants
    of the worker answer [/scheduled] with a 500 whose error is
    HTTP error! status: followed by that status, and touch no storage. *)
Theorem not_ok_fetch_is_reported :
  forall (S E : Type) (Q : api E) (env : Router.Env S) (s : S)
         (response : FetchResponse),
    Router.fetched env = Ok response ->
    ok response = false ->
    Router.scheduled (scrapeFlixPatrol Q) env s
    = (Ok (failure_scheduled
             (Router.isoNow env)
             (mkError ("HTTP error! status: "
                       ++ show_nat (status response))%string)), s)
    /\ Router.scheduled Parse.scrapeFlixPatrol env s
       = (Ok (failure_scheduled
                (Router.isoNow env)
                (mkError ("HTTP error! status: "
                          ++ show_nat (status response))%string)), s).
Proof.
  intros S E Q env s response Hf Hok.
  unfold Router.scheduled, Store.try_catch, Store.bind, Store.lift,
    scrapeFlixPatrol, Parse.scrapeFlixPatrol.
  rewrite Hf. simpl. rewrite Hok. simpl. split; reflexivity.
Qed.

(** X8: the manual route does what the scheduled one does: from the same
    surroundings both leave the same store and report the same success,
    counts and error; the manual one adds the CORS headers. *)
Theorem manual_run_agrees_with_scheduled :
  forall (S : Type) (scrape : result FetchResponse -> result (list Movie))
         (env : Router.Env S) (s : S),
    exists r1 r2 s',
      Router.scheduled scrape env s = (Ok r1, s')
      /\ Router.scrape_now scrape env s = (Ok r2, s')
      /\ Router.http_status r1 = Router.http_status r2
      /\ Router.headers r2 = Router.corsHeaders
      /\ forall k,
          In k ["success"; "totalScraped"; "filtered2025Count";
                "storedCount"; "error"] ->
          prop k (Router.body r1) = prop k (Router.body r2).
Proof.
  intros S scrape env s.
  destruct (scheduled_cases scrape env s)
    as [(d & q & Hd & Hq & Hs) | (e & He & Hs)];
    destruct (scrape_now_outcome scrape env s)
      as [(d' & q' & Hd' & Hq' & Hn) | (e' & He' & Hn)].
  - rewrite Hd in Hd'. injection Hd' as <-.
    rewrite Hq in Hq'. injection Hq' as <-.
    eexists _, _, _. split; [exact Hs|]. split; [exact Hn|].
    repeat split.
    intros k [<- | [<- | [<- | [<- | [<- | []]]]]]; reflexivity.
  - exfalso. destruct He' as [He' | (x & _ & He')]; congruence.
  - exfalso. destruct He as [He | (x & _ & He)]; congruence.
  - assert (e' = e).
    { destruct He as [He | (x & Hx & He)];
        destruct He' as [He' | (x' & Hx' & He')]; congruence. }
    subst e'.
    eexists _, _, _. split; [exact Hs|]. split; [exact Hn|].
    repeat split.
    intros k [<- | [<- | [<- | [<- | [<- | []]]]]]; reflexivity.
Qed.

(* ================================================================== *)
(** * The read routes *)

Section OrderingFacts.

Import Store Query.

Lemma insert_desc_perm (r : StoredMovie) (rows : list StoredMovie) :
  Permutation (insert_desc r rows) (r :: rows).
Proof.
  induction rows as [|x rest IH]; simpl; [reflexivity|].
  destruct (col_updated_at x <=? col_updated_at r)%nat; [reflexivity|].
  rewrite IH. apply perm_swap.
Qed.

Lemma insert_desc_latest (r : StoredMovie) (rows : list StoredMovie) :
  latest_first rows -> latest_first (insert_desc r rows).
Proof.
  induction 1 as [|x rest Hx Hrest IH]; simpl.
  - constructor; [intros y [] | constructor].
  - destruct (Nat.leb_spec (col_updated_at x) (col_updated_at r))
      as [Hle | Hlt].
    + constructor; [|now constructor].
      intros y [<- | Hy]; [exact Hle|]. specialize (Hx y Hy). lia.
    + constructor; [|exact IH].
      intros y Hy.
      apply (Permutation_in _ (insert_desc_perm r rest)) in Hy.
      destruct Hy as [<- | Hy]; [lia | now apply Hx].
Qed.

Lemma sort_desc_ordering : ordering sort_desc.
Proof.
  intro rows. induction rows as [|r rows [IHp IHs]]; simpl.
  - split; [reflexivity | constructor].
  - split; [|now apply insert_desc_latest].
    rewrite insert_desc_perm. now constructor.
Qed.

Lemma max_updated_at_spec (rows : list StoredMovie) :
  match max_updated_at rows with
  | None => rows = []
  | Some t =>
      (exists r, In r rows /\ col_updated_at r = t)
      /\ forall x, In x rows -> col_updated_at x <= t
  end.
Proof.
  induction rows as [|r rows IH]; simpl; [reflexivity|].
  destruct (max_updated_at rows) as [t|].
  - destruct IH as [(r0 & Hr0 & Ht) Hmax]. split.
    + destruct (Nat.max_spec (col_updated_at r) t) as [[_ ->] | [_ ->]].
      * exists r0. split; [now right | exact Ht].
      * exists r. split; [now left | reflexivity].
    + intros x [<- | Hx]; [lia|]. specialize (Hmax x Hx). lia.
  - subst rows. split.
    + exists r. split; [now left | reflexivity].
    + intros x [<- | []]. lia.
Qed.

Lemma max_of_latest_first (sorted rows : list StoredMovie) :
  Permutation sorted rows ->
  latest_first sorted ->
  max_updated_at rows = option_map col_updated_at (hd_error sorted).
Proof.
  intros Hp Hs. pose proof (max_updated_at_spec rows) as Hm.
  destruct (max_updated_at rows) as [t|].
  - destruct Hm as [(r0 & Hr0 & Ht) Hmax].
    destruct sorted as [|r rest].
    + apply Permutation_nil in Hp. subst rows. destruct Hr0.
    + simpl. f_equal. inversion Hs as [|? ? Hall _]; subst.
      assert (Hr : In r rows)
        by (apply (Permutation_in _ Hp); now left).
      specialize (Hmax r Hr).
      apply (Permutation_in _ (Permutation_sym Hp)) in Hr0.
      destruct Hr0 as [<- | Hr0]; [reflexivity|].
      specialize (Hall r0 Hr0). lia.
  - subst rows. apply Permutation_sym, Permutation_nil in Hp.
    now subst sorted.
Qed.

End OrderingFacts.

Section ReadRouteFacts.

Import Store Router Routes.

Variable S : Type.
Variable Row : Type.
Variable row_json : Row -> json.

(** A read route answers whatever happens, CORS headers included. *)
Lemma movies_route_answers (getDb : result (M S (list Row))) (s : S) :
  exists resp s',
    movies_route row_json getDb s = (Ok resp, s')
    /\ headers resp = corsHeaders.
Proof.
  unfold movies_route, try_catch, bind, lift, ret.
  destruct getDb as [select|e]; [|now eexists _, _].
  destruct (select s) as [[rows|e] s']; now eexists _, _.
Qed.

Lemma stats_route_answers (getDb : result (M S (list Row))) (s : S) :
  exists resp s',
    stats_route row_json getDb s = (Ok resp, s')
    /\ headers resp = corsHeaders.
Proof.
  unfold stats_route, try_catch, bind, lift, ret.
  destruct getDb as [select|e]; [|now eexists _, _].
  destruct (select s) as [[rows|e] s']; now eexists _, _.
Qed.

End ReadRouteFacts.

(** X9: [/movies] on a table the storage reads lists exactly the rows of
    the year 2025 without streaming, each once, latest first, reports
    their number as count, and leaves the table as it is. *)
Theorem movies_route_lists_current_rows :
  forall (row_json : Store.StoredMovie -> json)
         (order_by : list Store.StoredMovie -> list Store.StoredMovie)
         (rejects : Store.Db -> option Error) (db : Store.Db),
    Query.ordering order_by ->
    rejects db = None ->
    exists rows,
      Routes.movies_route row_json
                          (Ok (Query.neon_movies order_by rejects)) db
      = (Ok (Router.mkResponse
               (JObj [("success", JBool true);
                      ("count", JNum (List.length rows));
                      ("movies", JArr (map row_json rows))])
               200 Router.corsHeaders),
         db)
      /\ Permutation rows (filter Query.current (Store.movies_table db))
      /\ Query.latest_first rows
      /\ (forall r, In r rows
                    <-> In r (Store.movies_table db)
                        /\ Store.col_year r = Some "2025"
                        /\ Store.col_has_streaming r = false).
Proof.
  intros row_json order_by rejects db Hord Hacc.
  exists (Query.select_movies order_by (Store.movies_table db)).
  destruct (Hord (filter Query.current (Store.movies_table db)))
    as [Hperm Hsorted].
  split; [|split; [exact Hperm | split; [exact Hsorted|]]].
  - unfold Routes.movies_route, Store.try_catch, Store.bind, Store.lift,
      Store.ret, Query.neon_movies.
    now rewrite Hacc.
  - intro r. unfold Query.select_movies. split.
    + intro Hr. apply (Permutation_in _ Hperm) in Hr.
      apply filter_In in Hr. destruct Hr as [Hin Hcur].
      split; [exact Hin|]. unfold Query.current in Hcur.
      apply andb_true_iff in Hcur. destruct Hcur as [Hy Hs].
      destruct (Store.col_year r) as [y|]; [|discriminate].
      apply String.eqb_eq in Hy. subst y.
      apply negb_true_iff in Hs. now split.
    + intros (Hin & Hy & Hs).
      apply (Permutation_in _ (Permutation_sym Hperm)).
      apply filter_In. split; [exact Hin|].
      unfold Query.current. now rewrite Hy, Hs.
Qed.

Lemma movies_route_lists_current_rows_witness :
  exists rows,
    Routes.movies_route Scene.stored_json
                        (Ok (Query.neon_movies Query.sort_desc
                                               Scene.no_fault))
                        Scene.db_three
    = (Ok (Router.mkResponse
             (JObj [("success", JBool true);
                    ("count", JNum (List.length rows));
                    ("movies", JArr (map Scene.stored_json rows))])
             200 Router.corsHeaders),
       Scene.db_three)
    /\ Permutation rows
                   (filter Query.current (Store.movies_table Scene.db_three))
    /\ Query.latest_first rows
    /\ (forall r, In r rows
                  <-> In r (Store.movies_table Scene.db_three)
                      /\ Store.col_year r = Some "2025"
                      /\ Store.col_has_streaming r = false).
Proof.
  exact (@movies_route_lists_current_rows
           Scene.stored_json Query.sort_desc Scene.no_fault Scene.db_three
           sort_desc_ordering eq_refl).
Defined.

(** X10: the row of [/stats] agrees with the list of [/movies] on the
    same table: total_movies is the number of listed rows, and
    last_updated is the updated_at of the first of them, NULL when there
    is none. *)
Theorem stats_agree_with_movies :
  forall (order_by : list Store.StoredMovie -> list Store.StoredMovie)
         (rows : list Store.StoredMovie),
    Query.ordering order_by ->
    Query.select_stats rows
    = [Query.mkStats
         (List.length (Query.select_movies order_by rows))
         (option_map Store.col_updated_at
                     (hd_error (Query.select_movies order_by rows)))].
Proof.
  intros order_by rows Hord.
  destruct (Hord (filter Query.current rows)) as [Hperm Hsorted].
  unfold Query.select_stats, Query.select_movies.
  rewrite (Permutation_length Hperm).
  now rewrite (max_of_latest_first Hperm Hsorted).
Qed.

Lemma stats_agree_with_movies_witness :
  Query.select_stats (Store.movies_table Scene.db_three)
  = [Query.mkStats
       (List.length (Query.select_movies
                       Query.sort_desc (Store.movies_table Scene.db_three)))
       (option_map Store.col_updated_at
                   (hd_error (Query.select_movies
                                Query.sort_desc
                                (Store.movies_table Scene.db_three))))].
Proof.
  exact (@stats_agree_with_movies Query.sort_desc
           (Store.movies_table Scene.db_three) sort_desc_ordering).
Defined.

(** X11: every record a run of [/scheduled] stored is listed by
    [/movies] afterwards, under its title. *)
Theorem stored_records_are_listed :
  forall (scrape : result FetchResponse -> result (list Movie))
         (env : Router.Env Store.Db)
         (rejects : Movie -> Store.Db -> option Error) (db : Store.Db)
         (scrapedData : list Movie)
         (order_by : list Store.StoredMovie -> list Store.StoredMovie),
    scrape (Router.fetched env) = Ok scrapedData ->
    Router.getDb env = Ok (Store.neon_sql rejects) ->
    Query.ordering order_by ->
    forall movie,
      In movie (accepted rejects (filtered2025 scrapedData) db) ->
      exists r,
        In r (Query.select_movies
                order_by
                (Store.movies_table (snd (Router.scheduled scrape env db))))
        /\ Store.col_title r = title movie
        /\ Store.col_year r = Some "2025".
Proof.
  intros scrape env rejects db d order_by Hd Hdb Hord movie Hin.
  destruct (scheduled_cases scrape env db)
    as [(d' & q & Hd' & Hq & Hs) | (e & He & _)].
  - rewrite Hd in Hd'. injection Hd' as <-.
    rewrite Hdb in Hq. injection Hq as <-.
    rewrite Hs. simpl.
    destruct (attempts_neon rejects (filtered2025 d) db) as [_ ->]. simpl.
    destruct (upsert_all_holds (Store.now db) (Store.movies_table db)
                               movie (accepted_all_kept rejects d db) Hin)
      as (r & Hr & Ht & Hcur).
    exists r. split; [|split; [exact Ht|]].
    + unfold Query.select_movies.
      match goal with
      | |- In r (order_by ?l) =>
          destruct (Hord l) as [Hperm _];
          apply (Permutation_in _ (Permutation_sym Hperm))
      end.
      apply filter_In. now split.
    + unfold Query.current in Hcur. apply andb_true_iff in Hcur.
      destruct Hcur as [Hy _].
      destruct (Store.col_year r) as [y|]; [|discriminate].
      apply String.eqb_eq in Hy. now subst y.
  - exfalso. destruct He as [He | (x & _ & He)]; congruence.
Qed.

Lemma stored_records_are_listed_witness :
  exists r,
    In r (Query.select_movies
            Query.sort_desc
            (Store.movies_table
               (snd (Router.scheduled
                       (scrapeFlixPatrol
                          (Sample.lib (Sample.page [Sample.inception])))
                       (Sample.env Sample.accepts_all) Sample.db_two))))
    /\ Store.col_title r = Some "Inception"
    /\ Store.col_year r = Some "2025".
Proof.
  apply (@stored_records_are_listed
           (scrapeFlixPatrol (Sample.lib (Sample.page [Sample.inception])))
           (Sample.env Sample.accepts_all) Sample.accepts_all Sample.db_two
           [inception_record] Query.sort_desc
           eq_refl eq_refl sort_desc_ordering inception_record).
  left. reflexivity.
Defined.

Lemma failed_run_writes_nothing_witness :
  Sample.db_two = Sample.db_two
  /\ Router.http_status
       (failure_scheduled "2025-07-12T00:00:00.000Z"
                          (mkError "HTTP error! status: 503")) = 500
  /\ exists e,
      prop "error"
           (Router.body
              (failure_scheduled "2025-07-12T00:00:00.000Z"
                                 (mkError "HTTP error! status: 503")))
      = Some (JStr (message e))
      /\ (Parse.scrapeFlixPatrol (Router.fetched Scene.env_unavailable)
          = Throw e
          \/ Router.getDb Scene.env_unavailable = Throw e).
Proof.
  apply (@failed_run_writes_nothing
           Store.Db Parse.scrapeFlixPatrol Scene.env_unavailable
           Sample.db_two Sample.db_two
           (failure_scheduled "2025-07-12T00:00:00.000Z"
                              (mkError "HTTP error! status: 503"))).
  - left. reflexivity.
  - reflexivity.
Defined.

Lemma not_ok_fetch_is_reported_witness :
  Router.scheduled (scrapeFlixPatrol (Sample.lib (Sample.page [])))
                   Scene.env_unavailable Sample.db_two
  = (Ok (failure_scheduled
           (Router.isoNow Scene.env_unavailable)
           (mkError ("HTTP error! status: "
                     ++ show_nat (status Scene.unavailable))%string)),
     Sample.db_two)
  /\ Router.scheduled Parse.scrapeFlixPatrol
                      Scene.env_unavailable Sample.db_two
     = (Ok (failure_scheduled
              (Router.isoNow Scene.env_unavailable)
              (mkError ("HTTP error! status: "
                        ++ show_nat (status Scene.unavailable))%string)),
        Sample.db_two).
Proof.
  exact (@not_ok_fetch_is_reported
           Store.Db Dom.node (Sample.lib (Sample.page []))
           Scene.env_unavailable Sample.db_two Scene.unavailable
           eq_refl eq_refl).
Defined.

(* ================================================================== *)
(** * The router and the cron entry point *)

Section WorkerFacts.

Import Store Router Routes.

Variable S : Type.
Variable Row : Type.
Variable row_json : Row -> json.
Variable StatsRow : Type.
Variable stats_json : StatsRow -> json.
Variable scrape : result FetchResponse -> result (list Movie).
Variable path_matches : string -> string -> bool.
Variable missing : Response.

Lemma scheduled_answers (env : Env S) (s : S) :
  exists resp s', scheduled scrape env s = (Ok resp, s').
Proof.
  destruct (scheduled_cases scrape env s)
    as [(d & q & _ & _ & ->) | (e & _ & ->)]; now eexists _, _.
Qed.

Lemma scrape_now_answers (env : Env S) (s : S) :
  exists resp s',
    scrape_now scrape env s = (Ok resp, s')
    /\ headers resp = corsHeaders.
Proof.
  destruct (scrape_now_outcome scrape env s)
    as [(d & q & _ & _ & ->) | (e & _ & ->)]; now eexists _, _.
Qed.

Lemma dispatch_answers
      (rs : list (string * string
                  * (WorkerEnv S Row StatsRow -> M S Response)))
      (request : Request) (env : WorkerEnv S Row StatsRow) (s : S) :
  (forall verb pattern handler,
      In (verb, pattern, handler) rs ->
      exists resp s', handler env s = (Ok resp, s')) ->
  exists resp s',
    dispatch path_matches missing rs request env s = (Ok resp, s').
Proof.
  induction rs as [|[[verb pattern] handler] rest IH]; intro H; simpl.
  - now eexists _, _.
  - destruct ((verb =? method request)
              && path_matches pattern (pathname request)).
    + apply (H verb pattern handler). now left.
    + apply IH. intros v p h Hin. apply (H v p h). now right.
Qed.

End WorkerFacts.

(** X12: no route of the worker throws, whatever the page, the storage
    and the request are: every handler answers, every handler but the one
    of [/scheduled] with the CORS headers, and so the router always gives
    a response. *)
Theorem every_route_answers :
  forall (S Row StatsRow : Type) (row_json : Row -> json)
         (stats_json : StatsRow -> json)
         (scrape : result FetchResponse -> result (list Movie))
         (path_matches : string -> string -> bool)
         (missing : Router.Response)
         (env : Routes.WorkerEnv S Row StatsRow) (s : S),
    (forall verb pattern handler,
        In (verb, pattern, handler)
           (Routes.routes S row_json stats_json scrape) ->
        exists resp s',
          handler env s = (Ok resp, s')
          /\ (pattern <> "/scheduled" ->
              Router.headers resp = Router.corsHeaders))
    /\ (forall request,
           exists resp s',
             Routes.router_fetch row_json stats_json scrape
                                 path_matches missing request env s
             = (Ok resp, s')).
Proof.
  intros S Row StatsRow row_json stats_json scrape path_matches missing
         env s.
  assert (Hall : forall verb pattern handler,
             In (verb, pattern, handler)
                (Routes.routes S row_json stats_json scrape) ->
             exists resp s',
               handler env s = (Ok resp, s')
               /\ (pattern <> "/scheduled" ->
                   Router.headers resp = Router.corsHeaders)).
  { intros verb pattern handler Hin. simpl in Hin.
    destruct Hin as [H|[H|[H|[H|[H|[H|[H|[]]]]]]]];
      injection H as <- <- <-.
    - now eexists _, _.
    - destruct (scheduled_answers scrape (Routes.run_env env) s)
        as (resp & s' & ->).
      exists resp, s'. split; [reflexivity | intro Hne; now elim Hne].
    - destruct (scrape_now_answers scrape (Routes.run_env env) s)
        as (resp & s' & -> & Hh).
      now exists resp, s'.
    - destruct (movies_route_answers row_json (Routes.getDb_movies env) s)
        as (resp & s' & -> & Hh).
      now exists resp, s'.
    - destruct (stats_route_answers stats_json (Routes.getDb_stats env) s)
        as (resp & s' & -> & Hh).
      now exists resp, s'.
    - now eexists _, _.
    - now eexists _, _. }
  split; [exact Hall|].
  intro request. unfold Routes.router_fetch. apply dispatch_answers.
  intros verb pattern handler Hin.
  destruct (Hall verb pattern handler Hin) as (resp & s' & H & _).
  now exists resp, s'.
Qed.

(** X13: the cron entry point does what a GET of [/scheduled] does, as
    long as the router fits that pattern to that path: it returns the
    handler's response, leaves the handler's store, and its own catch
    never has anything to throw again. *)
Theorem handleScheduled_is_scheduled :
  forall (S Row StatsRow : Type) (row_json : Row -> json)
         (stats_json : StatsRow -> json)
         (scrape : result FetchResponse -> result (list Movie))
         (path_matches : string -> string -> bool)
         (missing : Router.Response)
         (env : Routes.WorkerEnv S Row StatsRow) (s : S),
    path_matches "/scheduled" "/scheduled" = true ->
    Routes.handleScheduled row_json stats_json scrape path_matches missing
                           env s
    = Router.scheduled scrape (Routes.run_env env) s
    /\ exists resp s',
        Routes.handleScheduled row_json stats_json scrape path_matches
                               missing env s
        = (Ok resp, s').
Proof.
  intros S Row StatsRow row_json stats_json scrape path_matches missing
         env s Hfit.
  assert (Heq : Routes.handleScheduled row_json stats_json scrape
                                       path_matches missing env s
                = Router.scheduled scrape (Routes.run_env env) s).
  { unfold Routes.handleScheduled, Routes.router_fetch, Routes.routes.
    unfold Store.try_catch, Store.bind at 1.
    cbn [Routes.dispatch Routes.method Routes.pathname].
    rewrite Hfit.
    replace ("OPTIONS" =? "GET") with false by reflexivity.
    replace ("GET" =? "GET") with true by reflexivity.
    cbn [andb].
    destruct (scheduled_answers scrape (Routes.run_env env) s)
      as (resp & s' & ->).
    reflexivity. }
  split; [exact Heq|]. rewrite Heq. apply scheduled_answers.
Qed.

Lemma handleScheduled_is_scheduled_witness :
  Routes.handleScheduled
    Scene.stored_json Scene.stats_json
    (scrapeFlixPatrol (Sample.lib (Sample.page [Sample.inception])))
    String.eqb Scene.not_found
    Scene.worker_env Sample.db_two
  = Router.scheduled
      (scrapeFlixPatrol (Sample.lib (Sample.page [Sample.inception])))
      (Routes.run_env Scene.worker_env)
      Sample.db_two
  /\ exists resp s',
      Routes.handleScheduled
        Scene.stored_json Scene.stats_json
        (scrapeFlixPatrol (Sample.lib (Sample.page [Sample.inception])))
        String.eqb Scene.not_found
        Scene.worker_env Sample.db_two
      = (Ok resp, s').
Proof.
  exact (@handleScheduled_is_scheduled
           Store.Db Store.StoredMovie Query.Stats
           Scene.stored_json Scene.stats_json
           (scrapeFlixPatrol (Sample.lib (Sample.page [Sample.inception])))
           String.eqb Scene.not_found
           Scene.worker_env Sample.db_two
           eq_refl).
Defined.

(* ================================================================== *)
(** * More on what the extractors emit *)

Lemma parse_year_four_digits_witness : four_digits "2025" = true.
Proof.
  apply (@parse_year_four_digits
           Sample.html_shouting
           (mkMovie (Some "Heat") (Some "https://flixpatrol.com/p/heat.jpg")
                    (Some "https://flixpatrol.com/title/heat")
                    (Some "2025") None None false true)
           "2025").
  - vm_compute. left. reflexivity.
  - reflexivity.
Defined.

Section StringFacts.

Lemma startsWith_spec (p s : string) :
  startsWith p s = true <-> exists post, s = (p ++ post)%string.
Proof.
  revert s. induction p as [|a p IH]; intro s; simpl.
  - split; [intros _; now exists s | reflexivity].
  - destruct s as [|b s].
    + split; [discriminate | intros [post H]; discriminate].
    + rewrite andb_true_iff, Ascii.eqb_eq, IH. split.
      * intros [-> [post ->]]. now exists post.
      * intros [post H]. injection H as -> ->. split; [reflexivity|].
        now exists post.
Qed.

Lemma includes_spec (needle s : string) :
  includes needle s = true
  <-> exists pre post, s = (pre ++ needle ++ post)%string.
Proof.
  induction s as [|c s IH].
  - simpl. rewrite orb_false_r, startsWith_spec. split.
    + intros [post H]. now exists EmptyString, post.
    + intros (pre & post & H). destruct pre; [now exists post|].
      discriminate.
  - cbn [includes]. rewrite orb_true_iff, startsWith_spec, IH. split.
    + intros [[post H] | (pre & post & H)].
      * now exists EmptyString, post.
      * exists (String c pre), post. simpl. now rewrite H.
    + intros (pre & post & H). destruct pre as [|a pre].
      * left. now exists post.
      * right. simpl in H. injection H as _ H. now exists pre, post.
Qed.

Lemma startsWith_drop (p s : string) :
  startsWith p s = true -> s = (p ++ drop (String.length p) s)%string.
Proof.
  revert s. induction p as [|a p IH]; intro s; simpl.
  - now destruct s.
  - destruct s as [|b s]; [discriminate|].
    rewrite andb_true_iff, Ascii.eqb_eq. intros [-> H].
    simpl. now rewrite <- (IH s H).
Qed.

Lemma split_go_nonempty (sep : string) (s : string) :
  forall k, split_go sep k s <> [].
Proof.
  induction s as [|c s IH]; intro k; simpl; [discriminate|].
  destruct k; [|apply IH].
  destruct (startsWith sep (String c s)); [discriminate|].
  specialize (IH 0). destruct (split_go sep 0 s); [now elim IH|].
  discriminate.
Qed.

Lemma join_push_front (sep : string) (c : ascii) (pieces : list string) :
  pieces <> [] ->
  join sep (push_front c pieces) = String c (join sep pieces).
Proof.
  destruct pieces as [|p [|p' rest]]; [intro H; now elim H| |];
    reflexivity.
Qed.

Lemma join_cons (sep x : string) (pieces : list string) :
  pieces <> [] ->
  join sep (x :: pieces) = (x ++ sep ++ join sep pieces)%string.
Proof. destruct pieces; [intro H; now elim H | reflexivity]. Qed.

Lemma join_split_go (sep : string) :
  sep <> EmptyString ->
  forall s k, join sep (split_go sep k s) = drop k s.
Proof.
  intros Hsep s. induction s as [|c s IH]; intro k.
  - now destruct k.
  - destruct k as [|k]; [|apply IH].
    cbn [split_go drop].
    destruct (startsWith sep (String c s)) eqn:Hst.
    + rewrite join_cons by apply split_go_nonempty.
      rewrite IH. simpl.
      destruct sep as [|a sep']; [now elim Hsep|].
      simpl in Hst. apply andb_true_iff in Hst. destruct Hst as [Ha Hs].
      apply Ascii.eqb_eq in Ha. subst a.
      simpl. rewrite Nat.sub_0_r. now rewrite <- (startsWith_drop _ _ Hs).
    + rewrite join_push_front by apply split_go_nonempty.
      now rewrite IH.
Qed.

Lemma startsWith_app (p a tail : string) :
  startsWith p a = true -> startsWith p (a ++ tail) = true.
Proof.
  rewrite !startsWith_spec. intros [post ->]. exists (post ++ tail)%string.
  clear. induction p as [|c p IH]; simpl; [reflexivity | now rewrite IH].
Qed.

Lemma split_go_head_prefix (sep : string) (s p : string)
      (rest : list string) :
  sep <> EmptyString ->
  split_go sep 0 s = p :: rest ->
  exists tail, s = (p ++ tail)%string.
Proof.
  intros Hsep Hs. pose proof (join_split_go Hsep s 0) as Hj.
  rewrite Hs in Hj. replace (drop 0 s) with s in Hj by now destruct s.
  destruct rest as [|q rest].
  - cbn [join] in Hj. exists EmptyString. rewrite <- Hj. clear.
    induction p as [|c p IH]; simpl; [reflexivity | now rewrite <- IH].
  - rewrite join_cons in Hj by discriminate.
    eexists. symmetry. exact Hj.
Qed.

(** No piece of a split holds the separator. *)
Lemma split_go_pieces (sep : string) :
  sep <> EmptyString ->
  forall s k,
    Forall (fun piece => includes sep piece = false) (split_go sep k s).
Proof.
  intros Hsep s. induction s as [|c s IH]; intro k.
  - simpl. repeat constructor. simpl.
    destruct sep; [now elim Hsep | reflexivity].
  - destruct k as [|k]; [|apply IH].
    cbn [split_go].
    destruct (startsWith sep (String c s)) eqn:Hst.
    + constructor; [|apply IH]. simpl.
      destruct sep; [now elim Hsep | reflexivity].
    + pose proof (IH 0) as Hall.
      destruct (split_go sep 0 s) as [|p rest] eqn:Hs;
        [now elim (split_go_nonempty sep s 0)|].
      inversion Hall as [|? ? Hp Hrest]; subst.
      simpl. constructor; [|exact Hrest].
      cbn [includes]. rewrite Hp, orb_false_r.
      destruct (startsWith sep (String c p)) eqn:Hcp; [|reflexivity].
      destruct (split_go_head_prefix _ Hsep Hs) as [tail ->].
      apply (startsWith_app _ _ tail) in Hcp. simpl in Hcp, Hst.
      congruence.
Qed.

Lemma split_without_separator (sep s : string) :
  includes sep s = false -> split sep s = [s].
Proof.
  unfold split. induction s as [|c s IH]; [reflexivity|].
  cbn [includes split_go]. intro H. apply orb_false_iff in H.
  destruct H as [-> H]. now rewrite (IH H).
Qed.

Lemma trimStart_length (s : string) :
  String.length (trimStart s) <= String.length s.
Proof.
  induction s as [|c s IH]; simpl; [lia|].
  destruct (is_space c); simpl; lia.
Qed.

Lemma trimStart_idem (s : string) : trimStart (trimStart s) = trimStart s.
Proof.
  induction s as [|c s IH]; simpl; [reflexivity|].
  destruct (is_space c) eqn:Hc; [exact IH|]. simpl. now rewrite Hc.
Qed.

Lemma trimEnd_idem (s : string) : trimEnd (trimEnd s) = trimEnd s.
Proof.
  induction s as [|c s IH]; simpl; [reflexivity|].
  destruct (is_space c && (trimEnd s =? EmptyString)) eqn:Hc;
    [reflexivity|].
  simpl. now rewrite IH, Hc.
Qed.

Lemma trimStart_trimEnd (s : string) :
  trimStart s = s -> trimStart (trimEnd s) = trimEnd s.
Proof.
  destruct s as [|c s]; [reflexivity|]. simpl.
  destruct (is_space c) eqn:Hc.
  - intro H. pose proof (trimStart_length s) as Hl.
    rewrite H in Hl. simpl in Hl. lia.
  - intros _. simpl. now rewrite Hc.
Qed.

Lemma trim_trimmed (s : string) : trimmed (trim s).
Proof.
  unfold trimmed, trim.
  rewrite (trimStart_trimEnd (trimStart_idem s)).
  apply trimEnd_idem.
Qed.

Lemma split_slash_pieces (s : string) :
  Forall no_slash (split "/" s).
Proof.
  induction s as [|c s IH].
  - repeat constructor. intros a [].
  - rewrite split_slash_step.
    destruct (Ascii.eqb_spec "/"%char c) as [<-|Hc].
    + constructor; [intros a [] | exact IH].
    + destruct (split "/" s) as [|p rest]; simpl.
      * repeat constructor. intros a [<- | []]. congruence.
      * inversion IH as [|? ? Hp Hrest]; subst.
        constructor; [|exact Hrest].
        intros a [<- | Ha]; [congruence | now apply Hp].
Qed.

Lemma append_assoc (a b c : string) :
  ((a ++ b) ++ c = a ++ b ++ c)%string.
Proof. induction a as [|x a IH]; simpl; [reflexivity | now rewrite IH]. Qed.

Lemma endsWith_app (suffix x : string) :
  endsWith suffix (x ++ suffix) = true.
Proof.
  induction x as [|c x IH]; simpl.
  - destruct suffix; simpl; [reflexivity|].
    now rewrite Ascii.eqb_refl, String.eqb_refl.
  - now rewrite IH, orb_true_r.
Qed.

Lemma consumed_app (a b : string) : Regex.consumed (a ++ b) b = a.
Proof.
  unfold Regex.consumed.
  assert (H : String.length (a ++ b) - String.length b = String.length a).
  { assert (Hl : String.length (a ++ b)
                 = String.length a + String.length b)
      by (induction a as [|c a IH]; simpl; [reflexivity | now rewrite IH]).
    lia. }
  rewrite H. clear H.
  induction a as [|c a IH]; simpl; [now destruct b | now rewrite IH].
Qed.

Lemma run_of_app (p : Regex.charset) (s s' : string) :
  RegexSem.run_of p s s' -> exists run, s = (run ++ s')%string.
Proof.
  induction 1 as [s|c s s' _ _ [run ->]].
  - now exists EmptyString.
  - now exists (String c run).
Qed.

Lemma match_lit_exact (w : string) :
  forall s s',
    Regex.match_lit false w s = Some s' -> s = (w ++ s')%string.
Proof.
  induction w as [|a w IH]; intros s s'; simpl.
  - intro H. now injection H as <-.
  - destruct s as [|b s]; [discriminate|].
    unfold Regex.same_char. destruct (Ascii.eqb_spec a b) as [<-|];
      [|discriminate].
    intro H. now rewrite (IH _ _ H).
Qed.

End StringFacts.

(** X16: whenever [parseMovieData] flags a row, the pattern of the
    cheerio extractor matches the same text: the case-sensitive test is
    the narrower of the two. *)
Theorem parse_flag_implies_cheerio_pattern :
  forall (row : string) (movie : Movie),
    Parse.row_callback [] row = [movie] ->
    hasStreaming movie = true ->
    Regex.test true re_streaming row = true.
Proof.
  intros row movie Hrow Hflag.
  destruct (parse_row_callback [] row)
    as (m & Hc & _ & _ & _ & _ & Hs & _).
  rewrite Hc in Hrow. simpl in Hrow.
  destruct (truthy _ && includes _ _); [|discriminate].
  injection Hrow as <-. rewrite Hs in Hflag.
  apply existsb_exists in Hflag. destruct Hflag as (w & Hw & Hinc).
  apply includes_spec in Hinc. destruct Hinc as (pre & post & ->).
  apply test_spec. exists (w ++ post)%string, post, [].
  split; [apply suffix_of_app; now exists pre|].
  apply streaming_matches. split; [reflexivity|].
  exists w. split; [exact Hw|].
  apply match_lit_modulo_case. exists w. split; reflexivity.
Qed.

Lemma parse_flag_implies_cheerio_pattern_witness :
  Regex.test true re_streaming
             ("<img alt=" ++ Parse.q ++ "Heat" ++ Parse.q
              ++ "> Movie on Netflix")%string
  = true.
Proof.
  apply (@parse_flag_implies_cheerio_pattern
           ("<img alt=" ++ Parse.q ++ "Heat" ++ Parse.q
            ++ "> Movie on Netflix")%string
           (mkMovie (Some "Heat") None None None None None true true)).
  - vm_compute. reflexivity.
  - reflexivity.
Defined.

(** X17: on a row whose premiere text, trimmed, is day/month/year, the
    cheerio extractor emits the year part as the year. *)
Theorem cheerio_year_of_formatted_date :
  forall (parse : string -> Dom.node) (row : Dom.node) (movie : Movie)
         (dd mm yyyy : string),
    row_callback (Dom.cheerio parse) [] row = [movie] ->
    Dom.fullDateText row = (dd ++ String "/" (mm ++ String "/" yyyy))%string ->
    no_slash dd -> no_slash mm -> no_slash yyyy ->
    yyyy <> EmptyString ->
    year movie = Some yyyy.
Proof.
  intros parse row movie dd mm yyyy Hrow Hdate Hd Hm Hy Hne.
  rewrite (cheerio_year_unvalidated parse row Hrow), Hdate.
  now apply year_of_formatted_date.
Qed.

Lemma cheerio_year_of_formatted_date_witness :
  year inception_record = Some "2025".
Proof.
  apply (@cheerio_year_of_formatted_date
           (fun _ => Sample.page [Sample.inception]) Sample.inception
           inception_record "12" "07" "2025").
  - reflexivity.
  - reflexivity.
  - intros c [<- | [<- | []]]; discriminate.
  - intros c [<- | [<- | []]]; discriminate.
  - intros c [<- | [<- | [<- | [<- | []]]]]; discriminate.
  - discriminate.
Defined.

(** Takes a match of a sequence apart, down to its quantified classes. *)
Ltac invert_sequence :=
  repeat match goal with
         | H : RegexSem.matches _ (Regex.Cat _ _) _ _ _ _ |- _ =>
             inversion H; subst; clear H
         | H : RegexSem.matches _ (Regex.Group _ _) _ _ _ _ |- _ =>
             inversion H; subst; clear H
         | H : RegexSem.matches _ (Regex.Plus _) _ _ _ _ |- _ =>
             inversion H; subst; clear H
         | H : RegexSem.matches _ (Regex.Lit _) _ _ _ _ |- _ =>
             inversion H; subst; clear H
         end.

Lemma poster_match_shape (row p : string) :
  Regex.match_group Parse.re_poster 1 row = Some p ->
  exists stem, p = (stem ++ ".jpg")%string /\ stem <> EmptyString.
Proof.
  unfold Regex.match_group.
  destruct (Regex.exec false Parse.re_poster row) as [caps|] eqn:He;
    [|discriminate].
  apply exec_sound in He.
  destruct He as (s0 & s' & caps' & _ & Hm & ->).
  unfold Parse.re_poster in Hm; simpl in Hm.
  invert_sequence.
  simpl. intro H. injection H as <-.
  repeat match goal with
         | H : Regex.match_lit false _ _ = Some _ |- _ =>
             apply match_lit_exact in H
         | H : RegexSem.run_of _ _ _ |- _ => apply run_of_app in H
         end.
  match goal with
  | H : exists run, _ = _ |- _ => destruct H as [run Hrun]
  end.
  subst.
  match goal with
  | |- exists stem, Regex.consumed (String ?c (run ++ ".jpg" ++ ?rest)) ?rest
                    = _ /\ _ =>
      exists (String c run); split; [|discriminate];
      replace (String c (run ++ ".jpg" ++ rest))
        with ((String c run ++ ".jpg") ++ rest)%string
        by (simpl; now rewrite append_assoc)
  end.
  apply consumed_app.
Qed.

(** X18: every poster URL [parseMovieData] emits is the base origin
    followed by a path that ends in .jpg and has something before it. *)
Theorem parse_poster_shape :
  forall (html : string) (movie : Movie) (url : string),
    In movie (Parse.parseMovieData html) ->
    posterUrl movie = Some url ->
    exists stem,
      url = (base_origin ++ stem ++ ".jpg")%string
      /\ stem <> EmptyString
      /\ startsWith base_origin url = true
      /\ endsWith ".jpg" url = true.
Proof.
  intros html movie url Hin Hurl.
  unfold Parse.parseMovieData in Hin. rewrite parse_fold_rows in Hin.
  simpl in Hin. apply in_flat_map in Hin. destruct Hin as (row & _ & Hin).
  destruct (parse_row_callback [] row) as (m & Hc & _ & Hp & _).
  rewrite Hc in Hin. simpl in Hin.
  destruct (truthy _ && includes _ _); [|destruct Hin].
  destruct Hin as [<- | []]. rewrite Hp in Hurl.
  destruct (Regex.match_group Parse.re_poster 1 row) as [p|] eqn:Hm;
    [|discriminate].
  assert (Hu : url = (base_origin ++ p)%string)
    by (unfold option_map in Hurl; congruence).
  subst url.
  destruct (poster_match_shape _ Hm) as (stem & -> & Hne).
  exists stem. split; [reflexivity|]. split; [exact Hne|]. split.
  - apply startsWith_spec. now eexists.
  - rewrite <- append_assoc. apply endsWith_app.
Qed.

Lemma parse_poster_shape_witness :
  exists stem,
    "https://flixpatrol.com/p/heat.jpg"
    = (base_origin ++ stem ++ ".jpg")%string
    /\ stem <> EmptyString
    /\ startsWith base_origin "https://flixpatrol.com/p/heat.jpg" = true
    /\ endsWith ".jpg" "https://flixpatrol.com/p/heat.jpg" = true.
Proof.
  apply (@parse_poster_shape
           Sample.html_shouting
           (mkMovie (Some "Heat") (Some "https://flixpatrol.com/p/heat.jpg")
                    (Some "https://flixpatrol.com/title/heat")
                    (Some "2025") None None false true)
           "https://flixpatrol.com/p/heat.jpg").
  - vm_compute. left. reflexivity.
  - reflexivity.
Defined.

(** X19: an extractor emits at most one record per row, in the order of
    the rows; markup without the row marker gives [parseMovieData]
    nothing to emit. *)
Theorem at_most_one_record_per_row :
  (forall (E : Type) (Q : api E) (rows : list E),
      List.length (fold_left (row_callback Q) rows []) <= List.length rows)
  /\ (forall html : string,
         List.length (Parse.parseMovieData html)
         <= List.length (split Parse.row_marker html) - 1)
  /\ (forall html : string,
         includes Parse.row_marker html = false ->
         Parse.parseMovieData html = []).
Proof.
  split; [|split].
  - intros E Q rows. rewrite fold_rows. simpl.
    induction rows as [|row rows IH]; simpl; [lia|].
    rewrite length_app.
    assert (List.length (row_callback Q [] row) <= 1).
    { unfold row_callback, recover, JS.try_catch.
      destruct (row_body Q [] row) as [emitted|e] eqn:Hb; [|simpl; lia].
      apply row_body_emits in Hb.
      destruct Hb as [-> | (m & -> & _)]; simpl; lia. }
    lia.
  - intro html. unfold Parse.parseMovieData. rewrite parse_fold_rows.
    simpl. unfold slice1.
    destruct (split Parse.row_marker html) as [|first rows]; [simpl; lia|].
    simpl. rewrite Nat.sub_0_r.
    induction rows as [|row rows IH]; simpl; [lia|].
    rewrite length_app.
    destruct (parse_row_callback [] row) as (m & -> & _). simpl.
    destruct (truthy _ && includes _ _); simpl; lia.
  - intros html H. unfold Parse.parseMovieData.
    now rewrite (split_without_separator _ _ H).
Qed.

(** X20: [parseMovieData] drops nothing between rows: the page is the
    text before the first row marker and the fragments the function goes
    through, joined by the marker; none of these pieces holds the marker,
    and the records are those of the fragments, in order. *)
Theorem parse_rows_cover_the_page :
  forall html : string,
    exists head rows,
      html = join Parse.row_marker (head :: rows)
      /\ Forall (fun piece => includes Parse.row_marker piece = false)
                (head :: rows)
      /\ Parse.parseMovieData html = flat_map (Parse.row_callback []) rows
      /\ forall resp,
          ok resp = true ->
          text_body resp = Ok html ->
          Parse.scrapeFlixPatrol (Ok resp)
          = Ok (flat_map (Parse.row_callback []) rows).
Proof.
  intro html.
  assert (Hsep : Parse.row_marker <> EmptyString) by discriminate.
  pose proof (join_split_go Hsep html 0) as Hjoin.
  assert (Hp : Parse.parseMovieData html
               = flat_map (Parse.row_callback [])
                          (slice1 (split Parse.row_marker html)))
    by (unfold Parse.parseMovieData; now rewrite parse_fold_rows).
  pose proof (split_go_pieces Hsep html 0) as Hpieces.
  unfold split in *.
  destruct (split_go Parse.row_marker 0 html) as [|head rows] eqn:Hs;
    [now elim (split_go_nonempty Parse.row_marker html 0)|].
  exists head, rows. split; [|split; [|split]].
  - rewrite Hjoin. now destruct html.
  - exact Hpieces.
  - exact Hp.
  - intros resp Hok Htext. unfold Parse.scrapeFlixPatrol. simpl.
    rewrite Hok. simpl. rewrite Htext. simpl.
    unfold slice1 in Hp. simpl in Hp. now rewrite Hp.
Qed.

Section DomFieldFacts.

Import Dom.

Variable parse : string -> node.

(** The country, the genre and the year of a record of the cheerio
    extractor are trimmed texts or pieces of one, made null when
    empty. *)
Lemma dom_row_fields (row : node) (movie : Movie) :
  row_callback (cheerio parse) [] row = [movie] ->
  exists countryText genreText,
    country movie = or_null (Some (trim countryText))
    /\ genre movie = or_null (Some (trim genreText))
    /\ year movie = or_null (index (split "/" (fullDateText row)) 2).
Proof.
  unfold row_callback, recover, JS.try_catch, row_body.
  cbn [find attr text load cheerio JS.bind].
  destruct (truthy _ && includes _ _); [|discriminate].
  intro H. injection H as <-. now eexists _, _.
Qed.

End DomFieldFacts.

Lemma or_null_some (v : option string) (s : string) :
  or_null v = Some s -> v = Some s /\ s <> EmptyString.
Proof.
  unfold or_null, truthy. destruct v as [x|]; [|discriminate].
  destruct (String.eqb_spec x EmptyString) as [->|Hne]; [discriminate|].
  intro H. injection H as <-. now split.
Qed.

(** X21: a country, a genre or a year that the cheerio extractor emits is
    never the empty string; country and genre carry no white space at
    either end, and the year holds no slash. *)
Theorem cheerio_fields_are_clean :
  forall (parse : string -> Dom.node) (row : Dom.node) (movie : Movie),
    row_callback (Dom.cheerio parse) [] row = [movie] ->
    (forall c, country movie = Some c -> c <> EmptyString /\ trimmed c)
    /\ (forall g, genre movie = Some g -> g <> EmptyString /\ trimmed g)
    /\ (forall y, year movie = Some y -> y <> EmptyString /\ no_slash y).
Proof.
  intros parse row movie Hrow.
  destruct (dom_row_fields parse row Hrow) as (ct & gt & Hc & Hg & Hy).
  split; [|split].
  - intros c Hc'. rewrite Hc in Hc'. apply or_null_some in Hc'.
    destruct Hc' as [Heq Hne]. injection Heq as <-.
    split; [exact Hne | apply trim_trimmed].
  - intros g Hg'. rewrite Hg in Hg'. apply or_null_some in Hg'.
    destruct Hg' as [Heq Hne]. injection Heq as <-.
    split; [exact Hne | apply trim_trimmed].
  - intros y Hy'. rewrite Hy in Hy'. apply or_null_some in Hy'.
    destruct Hy' as [Heq Hne]. split; [exact Hne|].
    pose proof (split_slash_pieces (Dom.fullDateText row)) as Hall.
    rewrite Forall_forall in Hall. apply Hall.
    unfold index in Heq. now apply nth_error_In in Heq.
Qed.

Lemma cheerio_fields_are_clean_witness :
  (forall c, country inception_record = Some c
             -> c <> EmptyString /\ trimmed c)
  /\ (forall g, genre inception_record = Some g
                -> g <> EmptyString /\ trimmed g)
  /\ (forall y, year inception_record = Some y
                -> y <> EmptyString /\ no_slash y).
Proof.
  exact (@cheerio_fields_are_clean
           (fun _ => Sample.page [Sample.inception]) Sample.inception
           inception_record eq_refl).
Defined.

(** X22: each extractor emits a record for a row exactly when the title
    it reads off the row is not null and the text it searches holds the
    label Movie: the visible text of the row for the cheerio extractor,
    the markup of the fragment for [parseMovieData].  [scrapeFlixPatrol]
    returns the records of the rows in their order, and none of them has
    a null title, whatever the page and the library are. *)
Theorem emitted_iff_title_and_label :
  (forall (parse : string -> Dom.node) (resp : FetchResponse)
          (html : string),
      ok resp = true ->
      text_body resp = Ok html ->
      scrapeFlixPatrol (Dom.cheerio parse) (Ok resp)
      = Ok (flat_map (row_callback (Dom.cheerio parse) [])
                     (Dom.find_all (TagClass "tr" "table-group")
                                   [parse html])))
  /\ (forall (parse : string -> Dom.node) (row : Dom.node),
         ((exists movie, row_callback (Dom.cheerio parse) [] row = [movie])
          <-> Dom.title_of row <> None
              /\ includes "Movie" (Dom.rowText row) = true)
         /\ (row_callback (Dom.cheerio parse) [] row = []
             \/ exists movie,
                 row_callback (Dom.cheerio parse) [] row = [movie]
                 /\ title movie = Dom.title_of row))
  /\ (forall (resp : FetchResponse) (html : string),
         ok resp = true ->
         text_body resp = Ok html ->
         Parse.scrapeFlixPatrol (Ok resp)
         = Ok (flat_map (Parse.row_callback [])
                        (slice1 (split Parse.row_marker html))))
  /\ (forall row : string,
         (exists movie, Parse.row_callback [] row = [movie])
         <-> Regex.match_group Parse.re_title 1 row <> None
             /\ includes "Movie" row = true)
  /\ (forall (E : Type) (Q : api E) (fetched : result FetchResponse)
             (movies : list Movie),
         scrapeFlixPatrol Q fetched = Ok movies ->
         Forall (fun movie => title movie <> None) movies)
  /\ (forall (fetched : result FetchResponse) (movies : list Movie),
         Parse.scrapeFlixPatrol fetched = Ok movies ->
         Forall (fun movie => title movie <> None) movies).
Proof.
  destruct rows_emitted_iff_title_and_label as (Hdom & Hparse & Hany).
  split; [|split; [|split; [|split; [|split]]]].
  - intros parse resp html Hok Htext.
    unfold scrapeFlixPatrol. simpl. rewrite Hok. simpl.
    rewrite Htext. simpl. now rewrite fold_rows.
  - intros parse row. destruct (Hdom parse [row]) as (_ & Hiff & Hone).
    split; [apply Hiff | apply Hone].
  - intros resp html Hok Htext.
    unfold Parse.scrapeFlixPatrol. simpl. rewrite Hok. simpl.
    rewrite Htext. simpl. now destruct (Hparse html) as (-> & _).
  - intro row. destruct (Hparse EmptyString) as (_ & Hiff & _).
    apply Hiff.
  - intros E Q fetched movies. unfold scrapeFlixPatrol, JS.bind.
    destruct fetched as [resp|e]; [|discriminate].
    destruct (negb (ok resp)); [discriminate|].
    destruct (text_body resp) as [html|e]; [|discriminate].
    destruct (load Q html) as [doc|e]; [|discriminate].
    destruct (find Q (TagClass "tr" "table-group") [doc]) as [rows|e];
      [|discriminate].
    intro H. injection H as <-. apply Hany.
  - intros fetched movies. unfold Parse.scrapeFlixPatrol, JS.bind.
    destruct fetched as [resp|e]; [|discriminate].
    destruct (negb (ok resp)); [discriminate|].
    destruct (text_body resp) as [html|e]; [|discriminate].
    intro H. injection H as <-. now destruct (Hparse html) as (_ & _ & H).
Qed.
